(** * storage-upload-sample: CAR building, upload and progress reporting

    A shallow embedding of the three Go files of the repository:

    - [progressreader.go]: the [ProgressReader] decorator;
    - the CAR builder ([createCar], [writeFiles], [calculateCid]);
    - the uploader ([uploadFile], [uploadFileWithForm]).

    Calls into third-party packages (go-car, go-unixfsnode, go-multihash,
    the Titan scheduler client, net/http, os) are not part of the
    repository.  Their pure part is gathered in the record [Extern], the
    outcome of their input/output in the record [Host]; every function of
    the repository is written against these two records, and every effect
    it causes is appended to a trace of [Event]s. *)

From Stdlib Require Import List String Ascii ZArith Lia Bool.
From Stdlib Require Import Strings.Byte.
From Stdlib Require Import DecimalString.
Import ListNotations.

Local Open Scope string_scope.
Local Open Scope list_scope.
Local Open Scope Z_scope.

(* ------------------------------------------------------------------ *)
(** ** Go values *)

(** A Go [error]: [errors.New]/[fmt.Errorf] without [%w] give an
    [errorString]; [fmt.Errorf] with [%w] keeps the wrapped error.  The
    nil error is [None] in [option error]. *)
Inductive error : Type :=
| errorString (msg : string)
| wrapError (msg : string) (inner : error).

(** [err.Error()] *)
Definition Error (e : error) : string :=
  match e with
  | errorString m => m
  | wrapError m _ => m
  end.

(** [fmt.Errorf(prefix + "%w", err)] *)
Definition Errorf_w (prefix : string) (err : error) : error :=
  wrapError (prefix ++ Error err)%string err.

(** [fmt.Errorf(prefix + "%s" + suffix, s)] *)
Definition Errorf_s (prefix s suffix : string) : error :=
  errorString (prefix ++ s ++ suffix)%string.

(** [int64(x)] for [x : uint64]: the same 64 bits read as two's complement. *)
Definition int64_of_uint64 (x : Z) : Z :=
  let w := x mod 2 ^ 64 in
  if w <? 2 ^ 63 then w else w - 2 ^ 64.

(** [int64(n)] for [n : int].  Go's [int] is 32 or 64 bits wide, so the
    conversion is a sign extension and keeps the value. *)
Definition int64_of_int (n : Z) : Z := n.

(** [a + b] on [int64], wrapping. *)
Definition int64_add (a b : Z) : Z :=
  let w := (a + b) mod 2 ^ 64 in
  if w <? 2 ^ 63 then w else w - 2 ^ 64.

(** [%d] *)
Definition fmt_d (z : Z) : string := NilZero.string_of_int (Z.to_int z).

(* ------------------------------------------------------------------ *)
(** ** path.Base *)

Definition slash : ascii := "/"%char.

(** Strip the trailing slashes. *)
Fixpoint stripTrailingSlashes (s : string) : string :=
  match s with
  | EmptyString => EmptyString
  | String c rest =>
      match stripTrailingSlashes rest with
      | EmptyString => if Ascii.eqb c slash then EmptyString else String c EmptyString
      | rest' => String c rest'
      end
  end.

(** The part after the last slash (the whole string when there is none). *)
Fixpoint afterLastSlash (s : string) (acc : string) : string :=
  match s with
  | EmptyString => acc
  | String c rest =>
      if Ascii.eqb c slash then afterLastSlash rest rest
      else afterLastSlash rest acc
  end.

Definition Base (path : string) : string :=
  match path with
  | EmptyString => "."
  | _ =>
      let p1 := stripTrailingSlashes path in
      let p2 := afterLastSlash p1 p1 in
      match p2 with
      | EmptyString => "/"
      | _ => p2
      end
  end.

(* ------------------------------------------------------------------ *)
(** ** Content identifiers, links and blocks (API level) *)

Definition SHA2_256 : Z := 18.   (* multihash.SHA2_256 = 0x12 *)
Definition DagPb : Z := 112.     (* multicodec.DagPb  = 0x70 *)

(** [cid.Cid]: [cid.Undef] or what [cid.NewCidV1 codec mhash] builds. *)
Inductive Cid : Type :=
| Undef
| NewCidV1 (codecType : Z) (mhash : list byte).

(** [ipld.Link]: a [cidlink.Link], or anything else (a nil link, a link of
    another implementation); [repr] is what [%s] prints for it. *)
Inductive Link : Type :=
| CidLink (c : Cid)
| OtherLink (repr : string).

(** [blocks.Block] *)
Record Block : Type := mkBlock { RawData : list byte; BlockCid : Cid }.

(** [dagpb.PBLink] *)
Record PBLink : Type := mkPBLink { Name : string; Tsize : Z; Hash : Link }.

(** [hash.Hash], as far as [createCar] uses it. *)
Record Hasher : Type := mkHasher { Sum : list byte -> list byte }.

(* ------------------------------------------------------------------ *)
(** ** What a UnixFS builder does with the link system

    A builder of go-unixfsnode receives [&ls] and calls back into the two
    closures [writeFiles] (or [calculateCid]) installed: it opens a writer,
    streams a node's bytes into it and commits it under a link
    ([BStore]), or it opens a reader for a link ([BLoad]).  A builder call
    is the finite tree of these requests; what the closures answer is
    decided by the repository's code, below. *)
Inductive Build (A : Type) : Type :=
| Done (a : A)
| BStore (data : list byte) (l : Link) (k : option error -> Build A)
| BLoad (l : Link) (k : option (list byte) * option error -> Build A).

Arguments Done {A} a.
Arguments BStore {A} data l k.
Arguments BLoad {A} l k.

(** A readable stream: the bytes it delivers and the error that ends it
    ([None] for io.EOF). *)
Record Stream : Type := mkStream { stream_bytes : list byte; stream_err : option error }.

(** The pure part of the packages the builder imports.  The builder
    programs are those for the file system contents at hand. *)
Record Extern : Type := mkExtern {
  GetHasher : Z -> Hasher * option error;
  Encode : list byte -> Z -> list byte * option error;
  NewBlockWithCid : list byte -> Cid -> Block * option error;
  BuildUnixFSRecursive : string -> Build (Link * Z * option error);
  BuildUnixFSDirectoryEntry : string -> Z -> Link -> PBLink * option error;
  BuildUnixFSDirectory : list PBLink -> Build (Link * Z * option error);
  BuildUnixFSFile : Stream -> string -> Build (Link * Z * option error);
  CidString : Cid -> string
}.

(** [l.String()], as [%s] prints a link. *)
Definition LinkString (E : Extern) (l : Link) : string :=
  match l with
  | CidLink c => CidString E c
  | OtherLink repr => repr
  end.

(* ------------------------------------------------------------------ *)
(** ** Effects: the trace and the host *)

(** [types.AssetProperty] and the reply of [CreateUserAsset]. *)
Record AssetProperty : Type := mkAssetProperty {
  AssetCID : string; AssetName : string; AssetSize : Z; AssetType : string
}.

Record CreateAssetRsp : Type := mkCreateAssetRsp {
  UploadURL : string; Token : string; AlreadyExists : bool
}.

(** Everything the program does to the outside, in the order it does it.
    Each event records the call and what the host answered. *)
Inductive Event : Type :=
| EvOpenReadWrite (path : string) (roots : list Cid) (err : option error)
| EvPut (blk : Block) (err : option error)
| EvGet (c : Cid) (blk : Block) (err : option error)
| EvFinalize (err : option error)
| EvReplaceRootsInFile (path : string) (roots : list Cid) (err : option error)
| EvOsOpen (path : string) (err : option error)
| EvFileStat (path : string) (err : option error)
| EvFileClose (path : string)
| EvCreateUserAsset (prop : AssetProperty) (rsp : CreateAssetRsp) (err : option error)
| EvStdout (line : string)
| EvCreateFormFile (field filename : string) (err : option error)
| EvCopy (err : option error)
| EvWriterClose (err : option error)
| EvNewRequest (method url : string) (err : option error)
| EvDo (contentType authorization : string) (err : option error)
| EvReadAll (err : option error)
| EvBodyClose.

Definition Trace : Type := list Event.

(** What the file stat of the uploader reports. *)
Record FileInfo : Type := mkFileInfo { fi_Name : string; fi_Size : Z }.

(** What the HTTP client answers. *)
Record Response : Type := mkResponse { Status : string }.

(** The outcome of each call that leaves the process, as a function of
    what happened before it. *)
Record Host : Type := mkHost {
  OpenReadWrite_res : Trace -> string -> list Cid -> option error;
  Put_res : Trace -> Block -> option error;
  Get_res : Trace -> Cid -> Block * option error;
  Finalize_res : Trace -> option error;
  ReplaceRootsInFile_res : Trace -> string -> list Cid -> option error;
  osOpen_res : Trace -> string -> option error;
  fileStat_res : Trace -> string -> FileInfo * option error;
  CreateUserAsset_res : Trace -> AssetProperty -> CreateAssetRsp * option error;
  goSyntax : error -> string;                      (* [%#v] *)
  CreateFormFile_res : Trace -> string -> string -> option error;
  Copy_res : Trace -> option error;
  WriterClose_res : Trace -> option error;
  formBody : Trace -> list byte;                   (* the multipart body built *)
  FormDataContentType : Trace -> string;
  NewRequest_res : Trace -> string -> string -> option error;
  Do_reads : Trace -> list nat;                    (* buffer sizes the transport reads the body with *)
  Do_res : Trace -> Response * option error;
  ReadAll_res : Trace -> list byte * option error;
  string_of_bytes : list byte -> string
}.

(** A computation of the program: given the trace so far (which the host
    may consult), it returns a value and the events it adds. *)
Definition M (A : Type) : Type := Trace -> A * Trace.

Definition ret {A} (a : A) : M A := fun _ => (a, []).

Definition bind {A B} (c : M A) (k : A -> M B) : M B :=
  fun t =>
    let (a, evs1) := c t in
    let (b, evs2) := k a (t ++ evs1) in
    (b, evs1 ++ evs2).

Declare Scope go_scope.
Delimit Scope go_scope with go.
Notation "x <- c ;; k" := (bind c (fun x => k))
  (at level 100, c at next level, right associativity) : go_scope.
Notation "' p <- c ;; k" := (bind c (fun x => let 'p := x in k))
  (at level 100, p pattern, c at next level, right associativity) : go_scope.
Notation "c ;;; k" := (bind c (fun _ => k))
  (at level 100, right associativity) : go_scope.
Local Open Scope go_scope.

(** A host call: ask the host, given the trace so far, and record it. *)
Definition call {A} (ask : Trace -> A) (ev : A -> Event) : M A :=
  fun t => let a := ask t in (a, [ev a]).

Definition emit (e : Event) : M unit := fun _ => (tt, [e]).

(** Read what the host holds, without an effect. *)
Definition ask {A} (f : Trace -> A) : M A := fun t => (f t, []).

Definition nl : string := String (ascii_of_nat 10) EmptyString.

(** [fmt.Printf] of an already formatted line, and [fmt.Println]. *)
Definition Print (line : string) : M unit := emit (EvStdout line).
Definition Println (line : string) : M unit := emit (EvStdout (line ++ nl)%string).

Section CarBuilder.

Variable E : Extern.
Variable H : Host.

(** *** The block store handle [bs] (go-car's [blockstore.ReadWrite]) *)

Definition OpenReadWrite (path : string) (roots : list Cid) : M (option error) :=
  call (fun t => OpenReadWrite_res H t path roots) (EvOpenReadWrite path roots).

Definition Put (blk : Block) : M (option error) :=
  call (fun t => Put_res H t blk) (EvPut blk).

Definition Get (c : Cid) : M (Block * option error) :=
  call (fun t => Get_res H t c) (fun r => EvGet c (fst r) (snd r)).

Definition Finalize : M (option error) :=
  call (fun t => Finalize_res H t) EvFinalize.

Definition ReplaceRootsInFile (path : string) (roots : list Cid) : M (option error) :=
  call (fun t => ReplaceRootsInFile_res H t path roots) (EvReplaceRootsInFile path roots).

(** *** [writeFiles]: the two closures of the link system *)

(** [ls.StorageReadOpener] *)
Definition StorageReadOpener (l : Link) : M (option (list byte) * option error) :=
  match l with
  | OtherLink _ => ret (None, Some (errorString "not a cidlink"))
  | CidLink c =>
      '(blk, err) <- Get c ;;
      match err with
      | Some e => ret (None, Some e)
      | None => ret (Some (RawData blk), None)
      end
  end.

(** The committer [ls.StorageWriteOpener] returns, over the buffer [buf]
    the builder wrote the node into. *)
Definition commit (buf : list byte) (l : Link) : M (option error) :=
  match l with
  | OtherLink _ => ret (Some (errorString "not a cidlink"))
  | CidLink c =>
      let '(blk, err) := NewBlockWithCid E buf c in
      match err with
      | Some e => ret (Some e)
      | None =>
          Put blk ;;;
          ret None
      end
  end.

(** [ls.StorageWriteOpener]: a fresh buffer, its committer, a nil error. *)
Definition StorageWriteOpener : list byte * (list byte -> Link -> M (option error)) * option error :=
  ([], commit, None).

(** One store request of a builder against these closures. *)
Definition lsStore (data : list byte) (l : Link) : M (option error) :=
  let '(buf, committer, err) := StorageWriteOpener in
  match err with
  | Some e => ret (Some e)
  | None => committer (buf ++ data) l
  end.

(** A builder call, run against the link system of [writeFiles]. *)
Fixpoint runBuild {A} (b : Build A) : M A :=
  match b with
  | Done a => ret a
  | BStore data l k => err <- lsStore data l ;; runBuild (k err)
  | BLoad l k => r <- StorageReadOpener l ;; runBuild (k r)
  end.

(** *** [writeFiles] *)

(** The [for _, p := range paths] loop: [inl] is a [return] from inside
    the loop, [inr] the [topLevel] slice when the loop runs to its end. *)
Fixpoint writeFiles_loop (noWrap : bool) (paths : list string) (topLevel : list PBLink)
  : M (Cid * option error + list PBLink) :=
  match paths with
  | [] => ret (inr topLevel)
  | p :: rest =>
      '(l, size, err) <- runBuild (BuildUnixFSRecursive E p) ;;
      match err with
      | Some e => ret (inl (Undef, Some e))
      | None =>
          if noWrap then
            match l with
            | CidLink c => ret (inl (c, None))
            | OtherLink _ =>
                ret (inl (Undef, Some (Errorf_s "could not interpret " (LinkString E l) "")))
            end
          else
            let name := Base p in
            let '(entry, err) := BuildUnixFSDirectoryEntry E name (int64_of_uint64 size) l in
            match err with
            | Some e => ret (inl (Undef, Some e))
            | None => writeFiles_loop noWrap rest (topLevel ++ [entry])
            end
      end
  end.

Definition writeFiles (noWrap : bool) (paths : list string) : M (Cid * option error) :=
  r <- writeFiles_loop noWrap paths [] ;;
  match r with
  | inl res => ret res
  | inr topLevel =>
      '(root, _, err) <- runBuild (BuildUnixFSDirectory E topLevel) ;;
      match err with
      | Some _ => ret (Undef, None)
      | None =>
          match root with
          | CidLink c => ret (c, None)
          | OtherLink _ =>
              ret (Undef, Some (Errorf_s "could not interpret " (LinkString E root) ""))
          end
      end
  end.

(** *** [createCar] *)

Definition createCar (input output : string) : M (string * option error) :=
  let '(hasher, err) := GetHasher E SHA2_256 in
  match err with
  | Some e => ret ("", Some e)
  | None =>
      let digest := Sum hasher [] in
      let '(hash, err) := Encode E digest SHA2_256 in
      match err with
      | Some e => ret ("", Some e)
      | None =>
          let proxyRoot := NewCidV1 DagPb hash in
          err <- OpenReadWrite output [proxyRoot] ;;
          match err with
          | Some e => ret ("", Some e)
          | None =>
              '(root, err) <- writeFiles true [input] ;;
              match err with
              | Some e => ret ("", Some e)
              | None =>
                  err <- Finalize ;;
                  match err with
                  | Some e => ret ("", Some e)
                  | None =>
                      err <- ReplaceRootsInFile output [root] ;;
                      ret (CidString E root, err)
                  end
              end
          end
      end
  end.

(** *** [calculateCid] *)

(** A builder call, run against the link system of [calculateCid]: the
    read opener answers [(nil, nil)], the committer answers [nil]. *)
Fixpoint runBuildDry {A} (b : Build A) : A :=
  match b with
  | Done a => a
  | BStore _ _ k => runBuildDry (k None)
  | BLoad _ k => runBuildDry (k (None, None))
  end.

(** [link.(cidlink.Link)] without the [ok] result panics on another link. *)
Inductive Outcome (A : Type) : Type :=
| Returns (a : A)
| Panics.

Arguments Returns {A} a.
Arguments Panics {A}.

Definition calculateCid (r : Stream) : Outcome (Cid * option error) :=
  let '(link, _, err) := runBuildDry (BuildUnixFSFile E r "") in
  match err with
  | Some e => Returns (Undef, Some e)
  | None =>
      match link with
      | CidLink c => Returns (c, None)
      | OtherLink _ => Panics
      end
  end.

End CarBuilder.

(* ------------------------------------------------------------------ *)
(** ** progressreader.go *)

(** [io.Reader]: [Read r p] gives the buffer as the call left it, [n],
    [err], and the reader after the call. *)
Class Reader (R : Type) : Type :=
  Read : R -> list byte -> (list byte * Z * option error) * R.

Definition EOF : error := errorString "EOF".

(** [copy(p, src)]: the bytes copied land at the front of [p]. *)
Definition copy (p src : list byte) : list byte * nat :=
  let n := Nat.min (List.length p) (List.length src) in
  (firstn n src ++ skipn n p, n).

(** [bytes.Buffer], as its unread bytes.  An empty buffer answers
    [(0, io.EOF)], or [(0, nil)] to an empty [p]. *)
Definition Buffer : Type := list byte.

#[export] Instance Buffer_Reader : Reader Buffer :=
  fun b p =>
    match b with
    | [] =>
        match p with
        | [] => ((p, 0, None), b)
        | _ => ((p, 0, Some EOF), b)
        end
    | _ =>
        let '(p', n) := copy p b in
        ((p', Z.of_nat n, None), skipn n b)
    end.

(** [ProgressReader]: the embedded reader and the [Reporter] callback
    (a non-nil func; calling a nil one panics).  [S] is the state the
    callback closes over. *)
Record ProgressReader (R S : Type) : Type := mkProgressReader {
  pr_Reader : R;
  Reporter : Z -> S -> S
}.

Arguments mkProgressReader {R S} pr_Reader Reporter.
Arguments pr_Reader {R S} p.
Arguments Reporter {R S} p r s.

(** [func (pr *ProgressReader) Read(p []byte) (n int, err error)] *)
Definition ProgressReader_Read {R S} `{Reader R}
    (pr : ProgressReader R S) (p : list byte) (s : S)
  : (list byte * Z * option error) * ProgressReader R S * S :=
  let '((p', n, err), r') := Read (pr_Reader pr) p in
  let s' := Reporter pr (int64_of_int n) s in
  ((p', n, err), mkProgressReader r' (Reporter pr), s').

(** A consumer issuing [Read] calls with the buffers [ps], one after the
    other, whatever each returns: the results in order, the reader and
    the callback's state at the end. *)
Fixpoint readCalls {R S} `{Reader R}
    (pr : ProgressReader R S) (ps : list (list byte)) (s : S)
  : list (list byte * Z * option error) * ProgressReader R S * S :=
  match ps with
  | [] => ([], pr, s)
  | p :: rest =>
      let '(res, pr', s') := ProgressReader_Read pr p s in
      let '(ress, pr'', s'') := readCalls pr' rest s' in
      (res :: ress, pr'', s'')
  end.

(** The same calls on a bare reader. *)
Fixpoint readCallsDirect {R} `{Reader R} (r : R) (ps : list (list byte))
  : list (list byte * Z * option error) * R :=
  match ps with
  | [] => ([], r)
  | p :: rest =>
      let '(res, r') := Read r p in
      let '(ress, r'') := readCallsDirect r' rest in
      (res :: ress, r'')
  end.

(** A consumer that streams the body: it reads with buffers of the given
    sizes and stops at the first call that returns an error (io.EOF
    included), or when it has no buffer left. *)
Fixpoint drain {R S} `{Reader R}
    (pr : ProgressReader R S) (sizes : list nat) (s : S)
  : list (list byte * Z * option error) * ProgressReader R S * S :=
  match sizes with
  | [] => ([], pr, s)
  | len :: rest =>
      let '(res, pr', s') := ProgressReader_Read pr (repeat x00 len) s in
      match snd res with
      | Some _ => ([res], pr', s')
      | None =>
          let '(ress, pr'', s'') := drain pr' rest s' in
          (res :: ress, pr'', s'')
      end
  end.

(** The observer that records every report it receives. *)
Definition logReporter (r : Z) (log : list Z) : list Z := log ++ [r].

(** The byte counts of a run of results. *)
Definition counts (ress : list (list byte * Z * option error)) : list Z :=
  map (fun res => snd (fst res)) ress.

(** A reader that hands out all its bytes together with io.EOF, as
    [io.Reader] allows. *)
Record EagerEOF : Type := mkEagerEOF { eager_bytes : list byte }.

#[export] Instance EagerEOF_Reader : Reader EagerEOF :=
  fun r p =>
    let '(p', n) := copy p (eager_bytes r) in
    let rest := skipn n (eager_bytes r) in
    ((p', Z.of_nat n, match rest with [] => Some EOF | _ => None end), mkEagerEOF rest).


(* ------------------------------------------------------------------ *)
(** ** The uploader *)

Section Uploader.

Variable H : Host.

Definition osOpen (path : string) : M (option error) :=
  call (fun t => osOpen_res H t path) (EvOsOpen path).

Definition fileStat (path : string) : M (FileInfo * option error) :=
  call (fun t => fileStat_res H t path) (fun r => EvFileStat path (snd r)).

Definition fileClose (path : string) : M unit := emit (EvFileClose path).

Definition CreateUserAsset (prop : AssetProperty) : M (CreateAssetRsp * option error) :=
  call (fun t => CreateUserAsset_res H t prop) (fun r => EvCreateUserAsset prop (fst r) (snd r)).

(** The closure handed to the [ProgressReader] in [uploadFileWithForm];
    it closes over [dongSize] and writes to standard output (the lines
    written so far are the second component). *)
Definition uploadReporter (totalSize : Z) (r : Z) (s : Z * Trace) : Z * Trace :=
  let '(dongSize, t) := s in
  if r >? 0 then
    let dongSize' := int64_add dongSize r in
    (dongSize',
     t ++ [EvStdout ("progress " ++ fmt_d dongSize' ++ "/" ++ fmt_d totalSize ++ nl)%string])
  else
    (dongSize, t ++ [EvStdout ("upload complete" ++ nl)%string]).

(** [client.Do(request)]: the transport streams the request body, then
    the host answers. *)
Definition clientDo (contentType authorization : string)
    (pr : ProgressReader Buffer (Z * Trace)) (dongSize : Z)
  : M (Response * option error) :=
  fun t =>
    let '(_, _, (_, printed)) := drain pr (Do_reads H t) (dongSize, []) in
    let '(r, evs) :=
      call (Do_res H) (fun r => EvDo contentType authorization (snd r)) (t ++ printed) in
    (r, printed ++ evs).

Definition uploadFileWithForm (filePath uploadURL token : string) : M (option error) :=
  err <- osOpen filePath ;;
  match err with
  | Some e => ret (Some e)
  | None =>
      '(stat, err) <- fileStat filePath ;;
      match err with
      | Some e => fileClose filePath ;;; ret (Some e)
      | None =>
          err <- call (fun t => CreateFormFile_res H t "file" (fi_Name stat))
                      (EvCreateFormFile "file" (fi_Name stat)) ;;
          match err with
          | Some e => fileClose filePath ;;; ret (Some e)
          | None =>
              err <- call (Copy_res H) EvCopy ;;
              match err with
              | Some e => fileClose filePath ;;; ret (Some e)
              | None =>
                  err <- call (WriterClose_res H) EvWriterClose ;;
                  match err with
                  | Some e => fileClose filePath ;;; ret (Some e)
                  | None =>
                      body <- ask (formBody H) ;;
                      let totalSize := Z.of_nat (List.length body) in
                      let dongSize := 0 in
                      let pr := mkProgressReader (body : Buffer) (uploadReporter totalSize) in
                      err <- call (fun t => NewRequest_res H t "POST" uploadURL)
                                  (EvNewRequest "POST" uploadURL) ;;
                      match err with
                      | Some e =>
                          fileClose filePath ;;;
                          ret (Some (Errorf_s "new request error " (Error e) ""))
                      | None =>
                          contentType <- ask (FormDataContentType H) ;;
                          '(response, err) <- clientDo contentType ("Bearer " ++ token)%string
                                                       pr dongSize ;;
                          match err with
                          | Some e =>
                              fileClose filePath ;;;
                              ret (Some (Errorf_s "do error " (Error e) ""))
                          | None =>
                              Println ("Response status: " ++ Status response)%string ;;;
                              '(b, err) <- call (ReadAll_res H) (fun r => EvReadAll (snd r)) ;;
                              match err with
                              | Some e =>
                                  emit EvBodyClose ;;; fileClose filePath ;;; ret (Some e)
                              | None =>
                                  Println ("Response body: " ++ string_of_bytes H b)%string ;;;
                                  emit EvBodyClose ;;; fileClose filePath ;;; ret None
                              end
                          end
                      end
                  end
              end
          end
      end
  end.

Definition uploadFile (carFilePath carCID fileName fileType : string) : M (option error) :=
  err <- osOpen carFilePath ;;
  match err with
  | Some e => ret (Some e)
  | None =>
      '(fileInfo, err) <- fileStat carFilePath ;;
      match err with
      | Some e => fileClose carFilePath ;;; ret (Some e)
      | None =>
          let assetProperty := mkAssetProperty carCID fileName (fi_Size fileInfo) fileType in
          '(rsp, err) <- CreateUserAsset assetProperty ;;
          match err with
          | Some e =>
              Print ("CreateUserAsset error " ++ goSyntax H e ++ nl)%string ;;;
              fileClose carFilePath ;;;
              ret (Some (Errorf_w "CreateUserAsset error " e))
          | None =>
              if AlreadyExists rsp then
                fileClose carFilePath ;;;
                ret (Some (Errorf_s "asset " carCID " already exist"))
              else
                err <- uploadFileWithForm carFilePath (UploadURL rsp) (Token rsp) ;;
                match err with
                | Some e =>
                    fileClose carFilePath ;;;
                    ret (Some (Errorf_w "uploadFileWithForm error " e))
                | None => fileClose carFilePath ;;; ret None
                end
          end
      end
  end.

End Uploader.

(* ------------------------------------------------------------------ *)
(** ** The two-phase root commitment as an automaton

    The states of the block store and the calls each state accepts:
    blocks are put (and read back) while the store is [Open], [Finalize]
    closes it, and [ReplaceRootsInFile] comes right after [Finalize].
    Any other call, or any event that is not a store call, is rejected. *)
Inductive StoreState : Type := NotOpened | Open | Finalized | RootPatched.

Definition storeStep (s : StoreState) (e : Event) : option StoreState :=
  match s, e with
  | NotOpened, EvOpenReadWrite _ _ None => Some Open
  | NotOpened, EvOpenReadWrite _ _ (Some _) => Some NotOpened
  | Open, EvPut _ _ => Some Open
  | Open, EvGet _ _ _ => Some Open
  | Open, EvFinalize _ => Some Finalized
  | Finalized, EvReplaceRootsInFile _ _ _ => Some RootPatched
  | _, _ => None
  end.

Fixpoint storeRun (s : StoreState) (t : Trace) : option StoreState :=
  match t with
  | [] => Some s
  | e :: rest =>
      match storeStep s e with
      | Some s' => storeRun s' rest
      | None => None
      end
  end.

Definition isPut (e : Event) : bool :=
  match e with EvPut _ _ => true | _ => false end.

Definition isGet (e : Event) : bool :=
  match e with EvGet _ _ _ => true | _ => false end.

Definition isFinalize (e : Event) : bool :=
  match e with EvFinalize _ => true | _ => false end.

Definition isReplaceRoots (e : Event) : bool :=
  match e with EvReplaceRootsInFile _ _ _ => true | _ => false end.

(** The events a builder causes through the link system. *)
Definition isBlockIO (e : Event) : bool := isPut e || isGet e.

(** What the store answered to the reads of a run, in order. *)
Fixpoint getAnswers (t : Trace) : list (Block * option error) :=
  match t with
  | [] => []
  | EvGet _ blk err :: rest => (blk, err) :: getAnswers rest
  | _ :: rest => getAnswers rest
  end.

(** The events of the HTTP transfer. *)
Definition isTransfer (e : Event) : bool :=
  match e with
  | EvCreateFormFile _ _ _ | EvCopy _ | EvWriterClose _
  | EvNewRequest _ _ _ | EvDo _ _ _ | EvReadAll _ | EvBodyClose => true
  | _ => false
  end.

(* ------------------------------------------------------------------ *)
(** ** A small instance of the outside world, to run the code on *)

Module Demo.

Definition byte_of_Z (z : Z) : byte :=
  match Byte.of_N (Z.to_N (z mod 256)) with
  | Some b => b
  | None => x00
  end.

(** A 32-byte stand-in for a digest. *)
Definition digest32 (data : list byte) : list byte :=
  firstn 32 (data ++ repeat x00 32).

Definition hasher : Hasher := mkHasher (fun b => b ++ digest32 []).

Definition encode (digest : list byte) (code : Z) : list byte * option error :=
  (byte_of_Z code :: byte_of_Z (Z.of_nat (List.length digest)) :: digest, None).

Definition cidOf (data : list byte) : Cid :=
  NewCidV1 DagPb (fst (encode (digest32 data) SHA2_256)).

Definition nilLink : Link := OtherLink "%!s(<nil>)".

(** A builder that stores one node per path and hands back the committer's
    error. *)
Definition buildPath (p : string) : Build (Link * Z * option error) :=
  let data := list_byte_of_string p in
  let l := CidLink (cidOf data) in
  BStore data l (fun err =>
    match err with
    | None => Done (l, Z.of_nat (List.length data), None)
    | Some e => Done (nilLink, 0, Some e)
    end).

Fixpoint hasName (n : string) (l : list PBLink) : bool :=
  match l with
  | [] => false
  | e :: rest => String.eqb n (Name e) || hasName n rest
  end.

Fixpoint duplicateName (l : list PBLink) : bool :=
  match l with
  | [] => false
  | e :: rest => hasName (Name e) rest || duplicateName rest
  end.

Definition entryBytes (e : PBLink) : list byte :=
  list_byte_of_string (Name e) ++
  match Hash e with
  | CidLink (NewCidV1 _ mh) => mh
  | _ => []
  end.

(** A directory builder that refuses two entries of the same name and
    otherwise stores one node listing the entries in order. *)
Definition buildDirectory (entries : list PBLink) : Build (Link * Z * option error) :=
  if duplicateName entries then
    Done (nilLink, 0, Some (errorString "duplicate directory entry"))
  else
    let data := x0a :: List.concat (map entryBytes entries) in
    let l := CidLink (cidOf data) in
    BStore data l (fun err =>
      match err with
      | None => Done (l, Z.of_nat (List.length data), None)
      | Some e => Done (nilLink, 0, Some e)
      end).

Definition cidString (c : Cid) : string :=
  match c with
  | Undef => ""
  | NewCidV1 _ mh => String "b" (string_of_list_byte mh)
  end.

Definition extern : Extern := {|
  GetHasher := fun _ => (hasher, None);
  Encode := encode;
  NewBlockWithCid := fun data c => (mkBlock data c, None);
  BuildUnixFSRecursive := buildPath;
  BuildUnixFSDirectoryEntry := fun name size l => (mkPBLink name size l, None);
  BuildUnixFSDirectory := buildDirectory;
  BuildUnixFSFile := fun r _ => buildPath (string_of_list_byte (stream_bytes r));
  CidString := cidString
|}.

(** A host on which every call succeeds, except as the arguments say:
    [put], [fin] and [replace] are what [Put], [Finalize] and
    [ReplaceRootsInFile] answer,
    [exists_] is the [AlreadyExists] flag of the scheduler's reply, the
    transport reads the body [body] with buffers of sizes [reads]. *)
Definition host (put fin replace : option error) (exists_ : bool)
    (body : list byte) (reads : list nat) : Host := {|
  OpenReadWrite_res := fun _ _ _ => None;
  Put_res := fun _ _ => put;
  Get_res := fun _ c => (mkBlock [] c, Some (errorString "not found"));
  Finalize_res := fun _ => fin;
  ReplaceRootsInFile_res := fun _ _ _ => replace;
  osOpen_res := fun _ _ => None;
  fileStat_res := fun _ path => (mkFileInfo (Base path) 5, None);
  CreateUserAsset_res := fun _ _ => (mkCreateAssetRsp "https://storage/upload" "token" exists_, None);
  goSyntax := Error;
  CreateFormFile_res := fun _ _ _ => None;
  Copy_res := fun _ => None;
  WriterClose_res := fun _ => None;
  formBody := fun _ => body;
  FormDataContentType := fun _ => "multipart/form-data; boundary=xyz";
  NewRequest_res := fun _ _ _ => None;
  Do_reads := fun _ => reads;
  Do_res := fun _ => (mkResponse "200 OK", None);
  ReadAll_res := fun _ => ([], None);
  string_of_bytes := string_of_list_byte
|}.

Definition okHost : Host := host None None None false (list_byte_of_string "hello") [4; 4; 4]%nat.

Definition diskFull : error := errorString "no space left on device".

End Demo.

(* ------------------------------------------------------------------ *)
(** ** The runs of [createCar], case by case *)

(** The placeholder root [createCar] opens the store with. *)
Definition proxyRootOf (E : Extern) : Cid :=
  NewCidV1 DagPb (fst (Encode E (Sum (fst (GetHasher E SHA2_256)) []) SHA2_256)).

(** [CarRun E output res evs]: a run of [createCar] that returns [res] and
    causes the events [evs] has one of six shapes, by the step it ends at. *)
Inductive CarRun (E : Extern) (output : string) : string * option error -> Trace -> Prop :=
| run_no_placeholder e :
    CarRun E output ("", Some e) []
| run_not_opened e :
    CarRun E output ("", Some e) [EvOpenReadWrite output [proxyRootOf E] (Some e)]
| run_build_failed e body :
    Forall (fun ev => isBlockIO ev = true) body ->
    CarRun E output ("", Some e) (EvOpenReadWrite output [proxyRootOf E] None :: body)
| run_not_finalized e body :
    Forall (fun ev => isBlockIO ev = true) body ->
    CarRun E output ("", Some e)
      (EvOpenReadWrite output [proxyRootOf E] None :: body ++ [EvFinalize (Some e)])
| run_replaced root err body :
    Forall (fun ev => isBlockIO ev = true) body ->
    CarRun E output (CidString E root, err)
      (EvOpenReadWrite output [proxyRootOf E] None
         :: body ++ [EvFinalize None; EvReplaceRootsInFile output [root] err]).

(** One entry of the synthetic directory: what [writeFiles] makes of the
    path [p] when the builder answers [(l, size, nil)] for it. *)
Definition entryOf (E : Extern) (p : string) (l : Link) (size : Z) : PBLink * option error :=
  BuildUnixFSDirectoryEntry E (Base p) (int64_of_uint64 size) l.

(** [Collected E H paths t entries evs]: started after the trace [t], the
    loop of [writeFiles] built every path of [paths] in turn and made one
    directory entry of each, [entries] in the order of [paths], causing
    the events [evs]. *)
Inductive Collected (E : Extern) (H : Host)
  : list string -> Trace -> list PBLink -> Trace -> Prop :=
| collected_nil t : Collected E H [] t [] []
| collected_cons p rest t l size evs1 entry entries evs2 :
    runBuild E H (BuildUnixFSRecursive E p) t = ((l, size, None), evs1) ->
    entryOf E p l size = (entry, None) ->
    Collected E H rest (t ++ evs1) entries evs2 ->
    Collected E H (p :: rest) t (entry :: entries) (evs1 ++ evs2).


(** What [writeFiles] returns from inside the loop under no-wrap, given
    what the builder returned for the path. *)
Definition bareResult (E : Extern) (r : Link * Z * option error) : Cid * option error :=
  let '(l, _, err) := r in
  match err with
  | Some e => (Undef, Some e)
  | None =>
      match l with
      | CidLink c => (c, None)
      | OtherLink _ => (Undef, Some (Errorf_s "could not interpret " (LinkString E l) ""))
      end
  end.

(* ------------------------------------------------------------------ *)
(** ** A [ProgressReader] is an [io.Reader] itself

    [*ProgressReader] has the method [Read], so it can be wrapped again.
    As a reader its state is the struct together with what its callback
    closes over. *)
#[export] Instance ProgressReader_Reader {R S} `{Reader R} : Reader (ProgressReader R S * S) :=
  fun st p =>
    let '(res, pr', s') := ProgressReader_Read (fst st) p (snd st) in
    (res, (pr', s')).

(** The bytes a run of results handed to the consumer: of each call, the
    first [n] bytes of the buffer. *)
Definition delivered (ress : list (list byte * Z * option error)) : list byte :=
  List.concat (map (fun res => firstn (Z.to_nat (snd (fst res))) (fst (fst res))) ress).

(** The totals [dongSize] runs through, from [acc], over the counts [cs]. *)
Fixpoint runningTotals (acc : Z) (cs : list Z) : list Z :=
  match cs with
  | [] => []
  | c :: rest => (acc + c) :: runningTotals (acc + c) rest
  end.

(** The line [uploadFileWithForm] prints for a data read. *)
Definition progressLine (totalSize dongSize : Z) : Event :=
  EvStdout ("progress " ++ fmt_d dongSize ++ "/" ++ fmt_d totalSize ++ nl)%string.

Definition completeLine : Event := EvStdout ("upload complete" ++ nl)%string.

Definition isStdout (e : Event) : bool :=
  match e with EvStdout _ => true | _ => false end.

Definition isOpenedFile (e : Event) : bool :=
  match e with EvOsOpen _ None => true | _ => false end.

Definition isFileClose (e : Event) : bool :=
  match e with EvFileClose _ => true | _ => false end.

Definition isDoOk (e : Event) : bool :=
  match e with EvDo _ _ None => true | _ => false end.

Definition isBodyClose (e : Event) : bool :=
  match e with EvBodyClose => true | _ => false end.

(** [errors.Unwrap] *)
Definition Unwrap (e : error) : option error :=
  match e with
  | errorString _ => None
  | wrapError _ inner => Some inner
  end.

(** A builder call that only stores, under cid links, blocks that
    [blocks.NewBlockWithCid] accepts. *)
Inductive CommitsCleanly (E : Extern) {A : Type} : Build A -> Prop :=
| clean_Done a : CommitsCleanly E (Done a)
| clean_BStore data c k :
    snd (NewBlockWithCid E data c) = None ->
    CommitsCleanly E (k None) ->
    CommitsCleanly E (BStore data (CidLink c) k).

(** The blocks such a call hands to the store, in order. *)
Fixpoint storedBlocks (E : Extern) {A : Type} (b : Build A) : list Block :=
  match b with
  | BStore data (CidLink c) k => fst (NewBlockWithCid E data c) :: storedBlocks E (k None)
  | _ => []
  end.

(** The blocks put by a run, in order. *)
Fixpoint putBlocks (t : Trace) : list Block :=
  match t with
  | [] => []
  | EvPut blk _ :: rest => blk :: putBlocks rest
  | _ :: rest => putBlocks rest
  end.

(* ------------------------------------------------------------------ *)
(** ** The command: [newSchedulerAPI], [execUpload], [main]

    The command adds calls of its own (the network set-up, [os.Stat],
    [os.Remove]); its trace holds them next to the events of the builder
    and the uploader, which are carried in [Core]. *)
Inductive SysEvent : Type :=
| Core (e : Event)
| EvListenPacket (network address : string) (err : option error)
| EvNewHTTP3Client (err : option error)
| EvNewLocator (url : string) (err : option error)
| EvGetSchedulerWithAPIKey (apiKey schedulerURL : string) (err : option error)
| EvNewScheduler (url authorization : string) (err : option error)
| EvApiClose
| EvUdpClose
| EvOsStat (path : string) (err : option error)
| EvOsRemove (path : string) (err : option error).

Definition SysTrace : Type := list SysEvent.

(** The builder's and uploader's view of a trace. *)
Fixpoint coreOf (st : SysTrace) : Trace :=
  match st with
  | [] => []
  | Core e :: rest => e :: coreOf rest
  | _ :: rest => coreOf rest
  end.

(** The outcome of the command's own calls; [coreHost] is the host the
    builder and the uploader meet, given what happened before they start.
    [TempDir] is [os.TempDir()], [Join] is [path.Join] on two elements. *)
Record SysHost : Type := mkSysHost {
  coreHost : SysTrace -> Host;
  ListenPacket_res : SysTrace -> option error;
  NewHTTP3Client_res : SysTrace -> option error;
  NewLocator_res : SysTrace -> string -> option error;
  GetSchedulerWithAPIKey_res : SysTrace -> string -> string * option error;
  NewScheduler_res : SysTrace -> string -> string -> option error;
  osStat_res : SysTrace -> string -> bool * option error;   (* IsDir(), err *)
  osRemove_res : SysTrace -> string -> option error;
  TempDir : string;
  Join : string -> string -> string
}.

Definition MS (A : Type) : Type := SysTrace -> A * SysTrace.

Definition retS {A} (a : A) : MS A := fun _ => (a, []).

Definition bindS {A B} (c : MS A) (k : A -> MS B) : MS B :=
  fun st =>
    let (a, evs1) := c st in
    let (b, evs2) := k a (st ++ evs1) in
    (b, evs1 ++ evs2).

Declare Scope sys_scope.
Delimit Scope sys_scope with sys.
Notation "x <- c ;; k" := (bindS c (fun x => k))
  (at level 100, c at next level, right associativity) : sys_scope.
Notation "' p <- c ;; k" := (bindS c (fun x => let 'p := x in k))
  (at level 100, p pattern, c at next level, right associativity) : sys_scope.
Notation "c ;;; k" := (bindS c (fun _ => k))
  (at level 100, right associativity) : sys_scope.

Definition callS {A} (ask : SysTrace -> A) (ev : A -> SysEvent) : MS A :=
  fun st => let a := ask st in (a, [ev a]).

Definition emitS (e : SysEvent) : MS unit := fun _ => (tt, [e]).


Section Command.

Variable E : Extern.
Variable SH : SysHost.

Local Open Scope sys_scope.

(** Run a function of the builder or the uploader inside the command. *)
Definition liftCore {A} (f : Host -> M A) : MS A :=
  fun st =>
    let (a, evs) := f (coreHost SH st) (coreOf st) in
    (a, map Core evs).

(** The [close] closure [newSchedulerAPI] returns. *)
Definition closeScheduler : MS unit :=
  emitS EvApiClose ;;; emitS EvUdpClose.

(** [newSchedulerAPI]; the scheduler handle is the host's, [close] is nil
    ([None]) when an error is returned. *)
Definition newSchedulerAPI (locatorURL apiKey : string)
  : MS (option (MS unit) * option error) :=
  err <- callS (ListenPacket_res SH) (EvListenPacket "udp" ":0") ;;
  match err with
  | Some e => retS (None, Some (Errorf_w "ListenPacket " e))
  | None =>
      err <- callS (NewHTTP3Client_res SH) EvNewHTTP3Client ;;
      match err with
      | Some e => retS (None, Some (Errorf_w "NewHTTP3Client " e))
      | None =>
          err <- callS (fun st => NewLocator_res SH st locatorURL) (EvNewLocator locatorURL) ;;
          match err with
          | Some e => retS (None, Some (Errorf_w "NewLocator " e))
          | None =>
              '(schedulerURL, err) <-
                 callS (fun st => GetSchedulerWithAPIKey_res SH st apiKey)
                       (fun r => EvGetSchedulerWithAPIKey apiKey (fst r) (snd r)) ;;
              match err with
              | Some e => retS (None, Some (Errorf_w "GetSchedulerWithAPIKey " e))
              | None =>
                  let authorization := ("Bearer " ++ apiKey)%string in
                  err <- callS (fun st => NewScheduler_res SH st schedulerURL authorization)
                               (EvNewScheduler schedulerURL authorization) ;;
                  match err with
                  | Some e => retS (None, Some (Errorf_w "NewScheduler " e))
                  | None => retS (Some closeScheduler, None)
                  end
              end
          end
      end
  end.

Definition osStat (path : string) : MS (bool * option error) :=
  callS (fun st => osStat_res SH st path) (fun r => EvOsStat path (snd r)).

Definition osRemove (path : string) : MS (option error) :=
  callS (fun st => osRemove_res SH st path) (EvOsRemove path).

(** Calling the deferred [close]; it is a closure whenever
    [newSchedulerAPI] returned a nil error. *)
Definition deferred (close : option (MS unit)) : MS unit :=
  match close with
  | Some f => f
  | None => retS tt
  end.

(** [execUpload] *)
Definition execUpload (apiKey locatorURL filePath : string) : MS (option error) :=
  '(close, err) <- newSchedulerAPI locatorURL apiKey ;;
  match err with
  | Some e => retS (Some e)
  | None =>
      '(isDir, err) <- osStat filePath ;;
      match err with
      | Some e => deferred close ;;; retS (Some e)
      | None =>
          let fileType := if isDir : bool then "folder" else "file" in
          let tempFile := Join SH (TempDir SH) (Base filePath) in
          '(_, err) <- osStat tempFile ;;
          (match err with
           | None => osRemove tempFile ;;; retS tt
           | Some _ => retS tt
           end) ;;;
          '(root, err) <- liftCore (fun H => createCar E H filePath tempFile) ;;
          match err with
          | Some e => deferred close ;;; retS (Some e)
          | None =>
              err <- liftCore (fun H => uploadFile H tempFile root (Base filePath) fileType) ;;
              match err with
              | Some e => deferred close ;;; retS (Some e)
              | None =>
                  err <- osRemove tempFile ;;
                  match err with
                  | Some e => deferred close ;;; retS (Some e)
                  | None => deferred close ;;; retS None
                  end
              end
          end
      end
  end.


End Command.

Definition isRemove (e : SysEvent) : bool :=
  match e with EvOsRemove _ _ => true | _ => false end.

Definition isCore (e : SysEvent) : bool :=
  match e with Core _ => true | _ => false end.

Definition isUdpClose (e : SysEvent) : bool :=
  match e with EvUdpClose => true | _ => false end.

Definition isListenOk (e : SysEvent) : bool :=
  match e with EvListenPacket _ _ None => true | _ => false end.

Module DemoSys.

(** A command host on which every call succeeds, except as the arguments
    say: [locator] is what [NewLocator] answers, [stale] tells whether the
    temporary file exists already, [core] is the host of the builder and
    the uploader. *)
Definition host (locator : option error) (stale : bool) (core : Host) : SysHost := {|
  coreHost := fun _ => core;
  ListenPacket_res := fun _ => None;
  NewHTTP3Client_res := fun _ => None;
  NewLocator_res := fun _ _ => locator;
  GetSchedulerWithAPIKey_res := fun _ _ => ("https://scheduler/rpc/v0", None);
  NewScheduler_res := fun _ _ _ => None;
  osStat_res := fun _ path =>
    if String.eqb path "/tmp/a" then
      (false, if stale then None else Some (errorString "no such file or directory"))
    else (false, None);
  osRemove_res := fun _ _ => None;
  TempDir := "/tmp";
  Join := fun a b => (a ++ "/" ++ b)%string
|}.

End DemoSys.

(* ------------------------------------------------------------------ *)
(** ** The runs of the uploader, case by case *)

Definition countIf (f : Event -> bool) (t : Trace) : nat := List.length (filter f t).

(** The events of [uploadFileWithForm] up to the finished form. *)
Definition formBuilt (filePath name : string) : Trace :=
  [EvOsOpen filePath None; EvFileStat filePath None;
   EvCreateFormFile "file" name None; EvCopy None; EvWriterClose None].

(** [FormRun filePath uploadURL token res evs]: a run of
    [uploadFileWithForm] that returns [res] and causes [evs] has one of
    nine shapes, by the step it ends at. *)
Inductive FormRun (filePath uploadURL token : string) : option error -> Trace -> Prop :=
| form_not_opened e :
    FormRun filePath uploadURL token (Some e) [EvOsOpen filePath (Some e)]
| form_no_stat e :
    FormRun filePath uploadURL token (Some e)
      [EvOsOpen filePath None; EvFileStat filePath (Some e); EvFileClose filePath]
| form_no_field name e :
    FormRun filePath uploadURL token (Some e)
      [EvOsOpen filePath None; EvFileStat filePath None;
       EvCreateFormFile "file" name (Some e); EvFileClose filePath]
| form_no_copy name e :
    FormRun filePath uploadURL token (Some e)
      [EvOsOpen filePath None; EvFileStat filePath None;
       EvCreateFormFile "file" name None; EvCopy (Some e); EvFileClose filePath]
| form_not_closed name e :
    FormRun filePath uploadURL token (Some e)
      [EvOsOpen filePath None; EvFileStat filePath None;
       EvCreateFormFile "file" name None; EvCopy None; EvWriterClose (Some e);
       EvFileClose filePath]
| form_no_request name e :
    FormRun filePath uploadURL token
      (Some (Errorf_s "new request error " (Error e) ""))
      (formBuilt filePath name ++
       [EvNewRequest "POST" uploadURL (Some e); EvFileClose filePath])
| form_not_sent name printed contentType e :
    Forall (fun ev => isStdout ev = true) printed ->
    FormRun filePath uploadURL token
      (Some (Errorf_s "do error " (Error e) ""))
      (formBuilt filePath name ++ [EvNewRequest "POST" uploadURL None] ++ printed ++
       [EvDo contentType ("Bearer " ++ token) (Some e); EvFileClose filePath])
| form_no_reply name printed contentType status e :
    Forall (fun ev => isStdout ev = true) printed ->
    FormRun filePath uploadURL token (Some e)
      (formBuilt filePath name ++ [EvNewRequest "POST" uploadURL None] ++ printed ++
       [EvDo contentType ("Bearer " ++ token) None;
        EvStdout ("Response status: " ++ status ++ nl);
        EvReadAll (Some e); EvBodyClose; EvFileClose filePath])
| form_sent name printed contentType status body :
    Forall (fun ev => isStdout ev = true) printed ->
    FormRun filePath uploadURL token None
      (formBuilt filePath name ++ [EvNewRequest "POST" uploadURL None] ++ printed ++
       [EvDo contentType ("Bearer " ++ token) None;
        EvStdout ("Response status: " ++ status ++ nl);
        EvReadAll None;
        EvStdout ("Response body: " ++ body ++ nl);
        EvBodyClose; EvFileClose filePath]).

(** The runs of [uploadFile], by the step they end at. *)
Inductive UploadRun (H : Host) (carFilePath carCID fileName fileType : string)
  : option error -> Trace -> Prop :=
| upload_not_opened e :
    UploadRun H carFilePath carCID fileName fileType (Some e)
      [EvOsOpen carFilePath (Some e)]
| upload_no_stat e :
    UploadRun H carFilePath carCID fileName fileType (Some e)
      [EvOsOpen carFilePath None; EvFileStat carFilePath (Some e); EvFileClose carFilePath]
| upload_refused size rsp e :
    UploadRun H carFilePath carCID fileName fileType
      (Some (Errorf_w "CreateUserAsset error " e))
      [EvOsOpen carFilePath None; EvFileStat carFilePath None;
       EvCreateUserAsset (mkAssetProperty carCID fileName size fileType) rsp (Some e);
       EvStdout ("CreateUserAsset error " ++ goSyntax H e ++ nl);
       EvFileClose carFilePath]
| upload_exists size rsp :
    AlreadyExists rsp = true ->
    UploadRun H carFilePath carCID fileName fileType
      (Some (Errorf_s "asset " carCID " already exist"))
      [EvOsOpen carFilePath None; EvFileStat carFilePath None;
       EvCreateUserAsset (mkAssetProperty carCID fileName size fileType) rsp None;
       EvFileClose carFilePath]
| upload_transfer size rsp res evs :
    AlreadyExists rsp = false ->
    FormRun carFilePath (UploadURL rsp) (Token rsp) res evs ->
    UploadRun H carFilePath carCID fileName fileType
      (match res with
       | Some e => Some (Errorf_w "uploadFileWithForm error " e)
       | None => None
       end)
      ([EvOsOpen carFilePath None; EvFileStat carFilePath None;
        EvCreateUserAsset (mkAssetProperty carCID fileName size fileType) rsp None]
       ++ evs ++ [EvFileClose carFilePath]).

(** The events that record a call the host answered with an error. *)
Definition failed (e : Event) : bool :=
  match e with
  | EvOpenReadWrite _ _ (Some _) | EvPut _ (Some _) | EvGet _ _ (Some _)
  | EvFinalize (Some _) | EvReplaceRootsInFile _ _ (Some _)
  | EvOsOpen _ (Some _) | EvFileStat _ (Some _) | EvCreateUserAsset _ _ (Some _)
  | EvCreateFormFile _ _ (Some _) | EvCopy (Some _) | EvWriterClose (Some _)
  | EvNewRequest _ _ (Some _) | EvDo _ _ (Some _) | EvReadAll (Some _) => true
  | _ => false
  end.

Module DemoFail.

(** [Demo.okHost], except that [client.Do] fails. *)
Definition connectionRefused : error := errorString "connection refused".

Definition noTransport : Host := {|
  OpenReadWrite_res := OpenReadWrite_res Demo.okHost;
  Put_res := Put_res Demo.okHost;
  Get_res := Get_res Demo.okHost;
  Finalize_res := Finalize_res Demo.okHost;
  ReplaceRootsInFile_res := ReplaceRootsInFile_res Demo.okHost;
  osOpen_res := osOpen_res Demo.okHost;
  fileStat_res := fileStat_res Demo.okHost;
  CreateUserAsset_res := CreateUserAsset_res Demo.okHost;
  goSyntax := goSyntax Demo.okHost;
  CreateFormFile_res := CreateFormFile_res Demo.okHost;
  Copy_res := Copy_res Demo.okHost;
  WriterClose_res := WriterClose_res Demo.okHost;
  formBody := formBody Demo.okHost;
  FormDataContentType := FormDataContentType Demo.okHost;
  NewRequest_res := NewRequest_res Demo.okHost;
  Do_reads := Do_reads Demo.okHost;
  Do_res := fun _ => (mkResponse "", Some connectionRefused);
  ReadAll_res := ReadAll_res Demo.okHost;
  string_of_bytes := string_of_bytes Demo.okHost
|}.

(** [Demo.extern], except that the builder fails on the path "missing". *)
Definition extern : Extern := {|
  GetHasher := GetHasher Demo.extern;
  Encode := Encode Demo.extern;
  NewBlockWithCid := NewBlockWithCid Demo.extern;
  BuildUnixFSRecursive := fun p =>
    if String.eqb p "missing"
    then Done (Demo.nilLink, 0, Some (errorString "no such file or directory"))
    else Demo.buildPath p;
  BuildUnixFSDirectoryEntry := BuildUnixFSDirectoryEntry Demo.extern;
  BuildUnixFSDirectory := BuildUnixFSDirectory Demo.extern;
  BuildUnixFSFile := BuildUnixFSFile Demo.extern;
  CidString := CidString Demo.extern
|}.

End DemoFail.

(** [s] holds a slash. *)
Fixpoint hasSlash (s : string) : bool :=
  match s with
  | EmptyString => false
  | String c rest => Ascii.eqb c slash || hasSlash rest
  end.

(* ------------------------------------------------------------------ *)
(** ** The runs of the command, case by case *)

(** The events of a completed set-up, with the scheduler found at [url]. *)
Definition setUp (locatorURL apiKey url : string) : SysTrace :=
  [EvListenPacket "udp" ":0" None; EvNewHTTP3Client None; EvNewLocator locatorURL None;
   EvGetSchedulerWithAPIKey apiKey url None;
   EvNewScheduler url ("Bearer " ++ apiKey) None].

(** The events of the deferred [close]. *)
Definition closed : SysTrace := [EvApiClose; EvUdpClose].

(** The runs of [newSchedulerAPI], by the step they end at. *)
Inductive SetupRun (locatorURL apiKey : string)
  : option (MS unit) * option error -> SysTrace -> Prop :=
| setup_no_socket e :
    SetupRun locatorURL apiKey (None, Some (Errorf_w "ListenPacket " e))
      [EvListenPacket "udp" ":0" (Some e)]
| setup_no_client e :
    SetupRun locatorURL apiKey (None, Some (Errorf_w "NewHTTP3Client " e))
      [EvListenPacket "udp" ":0" None; EvNewHTTP3Client (Some e)]
| setup_no_locator e :
    SetupRun locatorURL apiKey (None, Some (Errorf_w "NewLocator " e))
      [EvListenPacket "udp" ":0" None; EvNewHTTP3Client None;
       EvNewLocator locatorURL (Some e)]
| setup_no_url url e :
    SetupRun locatorURL apiKey (None, Some (Errorf_w "GetSchedulerWithAPIKey " e))
      [EvListenPacket "udp" ":0" None; EvNewHTTP3Client None; EvNewLocator locatorURL None;
       EvGetSchedulerWithAPIKey apiKey url (Some e)]
| setup_no_scheduler url e :
    SetupRun locatorURL apiKey (None, Some (Errorf_w "NewScheduler " e))
      [EvListenPacket "udp" ":0" None; EvNewHTTP3Client None; EvNewLocator locatorURL None;
       EvGetSchedulerWithAPIKey apiKey url None;
       EvNewScheduler url ("Bearer " ++ apiKey) (Some e)]
| setup_done url :
    SetupRun locatorURL apiKey (Some closeScheduler, None) (setUp locatorURL apiKey url).

(** The check for a left-over temporary file: it is missing, or
    [os.Remove] is called on it (and its result dropped). *)
Inductive StaleCheck (tempFile : string) : SysTrace -> Prop :=
| stale_missing e : StaleCheck tempFile [EvOsStat tempFile (Some e)]
| stale_removed r : StaleCheck tempFile [EvOsStat tempFile None; EvOsRemove tempFile r].

(** The runs of [execUpload], by the step they end at; [tempFile] is
    where the CAR is built. *)
Inductive ExecRun (E : Extern) (apiKey locatorURL filePath tempFile : string)
  : option error -> SysTrace -> Prop :=
| exec_no_setup close e evs :
    SetupRun locatorURL apiKey (close, Some e) evs ->
    ExecRun E apiKey locatorURL filePath tempFile (Some e) evs
| exec_no_input url e :
    ExecRun E apiKey locatorURL filePath tempFile (Some e)
      (setUp locatorURL apiKey url ++ [EvOsStat filePath (Some e)] ++ closed)
| exec_no_car url stale root e carEvs :
    StaleCheck tempFile stale ->
    CarRun E tempFile (root, Some e) carEvs ->
    ExecRun E apiKey locatorURL filePath tempFile (Some e)
      (setUp locatorURL apiKey url ++ [EvOsStat filePath None] ++ stale ++
       map Core carEvs ++ closed)
| exec_no_upload url stale root carEvs H fileType e upEvs :
    StaleCheck tempFile stale ->
    CarRun E tempFile (root, None) carEvs ->
    fileType = "file" \/ fileType = "folder" ->
    UploadRun H tempFile root (Base filePath) fileType (Some e) upEvs ->
    ExecRun E apiKey locatorURL filePath tempFile (Some e)
      (setUp locatorURL apiKey url ++ [EvOsStat filePath None] ++ stale ++
       map Core carEvs ++ map Core upEvs ++ closed)
| exec_uploaded url stale root carEvs H fileType upEvs r :
    StaleCheck tempFile stale ->
    CarRun E tempFile (root, None) carEvs ->
    fileType = "file" \/ fileType = "folder" ->
    UploadRun H tempFile root (Base filePath) fileType None upEvs ->
    ExecRun E apiKey locatorURL filePath tempFile r
      (setUp locatorURL apiKey url ++ [EvOsStat filePath None] ++ stale ++
       map Core carEvs ++ map Core upEvs ++ [EvOsRemove tempFile r] ++ closed).

(* ================================================================== *)
(** * Properties *)

(** ** The automaton *)

Lemma storeRun_app s t1 t2 :
  storeRun s (t1 ++ t2) =
  match storeRun s t1 with
  | Some s' => storeRun s' t2
  | None => None
  end.
Proof.
  revert s. induction t1 as [|e t1 IH]; intros s; simpl.
  - reflexivity.
  - destruct (storeStep s e) as [s'|]; [apply IH | reflexivity].
Qed.

Lemma storeRun_blockIO body :
  Forall (fun ev => isBlockIO ev = true) body -> storeRun Open body = Some Open.
Proof.
  induction 1 as [|e body He _ IH]; simpl.
  - reflexivity.
  - destruct e; simpl in He; try discriminate; simpl; exact IH.
Qed.

(** Once finalized, an accepted run holds at most the root replacement. *)
Lemma storeRun_Finalized t s :
  storeRun Finalized t = Some s ->
  t = [] \/ exists path roots err, t = [EvReplaceRootsInFile path roots err].
Proof.
  destruct t as [|e t]; [now left|].
  simpl. destruct e; simpl; try discriminate.
  destruct t as [|e' t]; simpl.
  - intros _. right. eauto.
  - destruct e'; discriminate.
Qed.

Lemma storeRun_RootPatched t s : storeRun RootPatched t = Some s -> t = [].
Proof. destruct t as [|e t]; [reflexivity|]. simpl. discriminate. Qed.

(** In an accepted run, nothing is put after [Finalize]. *)
Lemma accepted_no_put_after_finalize t :
  forall s s' pre e post,
    storeRun s t = Some s' -> t = pre ++ e :: post -> isFinalize e = true ->
    Forall (fun x => isPut x = false) post.
Proof.
  intros s s' pre e post Hrun -> He.
  rewrite storeRun_app in Hrun.
  destruct (storeRun s pre) as [s1|]; [|discriminate].
  simpl in Hrun. destruct e; try discriminate.
  destruct s1; simpl in Hrun; try discriminate.
  apply storeRun_Finalized in Hrun.
  destruct Hrun as [-> | (path & roots & err' & ->)]; repeat constructor.
Qed.

(** In an accepted run, the root replacement is the last call and comes
    right after [Finalize]. *)
Lemma accepted_replace_after_finalize t :
  forall s s' pre e post,
    storeRun s t = Some s' -> t = pre ++ e :: post -> isReplaceRoots e = true ->
    s = Finalized /\ pre = [] \/
    exists pre' f, pre = pre' ++ [f] /\ isFinalize f = true.
Proof.
  intros s s' pre. revert s. induction pre as [|x pre IH] using rev_ind; intros s e post Hrun -> He.
  - left. simpl in Hrun. destruct e; try discriminate.
    destruct s; simpl in Hrun; try discriminate. auto.
  - right. rewrite <- app_assoc in Hrun. simpl in Hrun.
    rewrite storeRun_app in Hrun.
    destruct (storeRun s pre) as [s1|]; [|discriminate].
    simpl in Hrun.
    destruct (storeStep s1 x) as [s2|] eqn:Hx; [|discriminate].
    destruct e; try discriminate.
    destruct (storeStep s2 _) as [s3|] eqn:He'; [|discriminate].
    destruct s2; simpl in He'; try discriminate.
    exists pre, x. split; [reflexivity|].
    destruct s1, x; simpl in Hx; try discriminate; try reflexivity.
    all: destruct err0; discriminate.
Qed.

(** ** The link system of [writeFiles] *)

Section CarBuilderFacts.

Variable E : Extern.
Variable H : Host.

Ltac blockIO_tac := repeat constructor.

Lemma commit_events buf l t :
  snd (commit E H buf l t) = [] \/
  exists blk, snd (commit E H buf l t) = [EvPut blk (Put_res H t blk)].
Proof.
  unfold commit. destruct l as [c|repr]; [|now left].
  destruct (NewBlockWithCid E buf c) as [blk [e|]]; [now left|].
  right. exists blk. reflexivity.
Qed.

Lemma lsStore_blockIO data l t :
  Forall (fun ev => isBlockIO ev = true) (snd (lsStore E H data l t)).
Proof.
  unfold lsStore. simpl.
  destruct (commit_events data l t) as [-> | [blk ->]]; blockIO_tac.
Qed.

Lemma StorageReadOpener_blockIO l t :
  Forall (fun ev => isBlockIO ev = true) (snd (StorageReadOpener H l t)).
Proof.
  unfold StorageReadOpener. destruct l as [c|repr]; [|constructor].
  unfold bind, Get, call. simpl.
  destruct (Get_res H t c) as [blk [e|]]; simpl; blockIO_tac.
Qed.

Lemma runBuild_blockIO {A} (b : Build A) :
  forall t, Forall (fun ev => isBlockIO ev = true) (snd (runBuild E H b t)).
Proof.
  induction b as [a | data l k IH | l k IH]; intros t; simpl.
  - constructor.
  - unfold bind. pose proof (lsStore_blockIO data l t) as Hs.
    destruct (lsStore E H data l t) as [err evs1]. simpl in Hs.
    specialize (IH err (t ++ evs1)).
    destruct (runBuild E H (k err) (t ++ evs1)) as [a evs2]. simpl in *.
    apply Forall_app; auto.
  - unfold bind. pose proof (StorageReadOpener_blockIO l t) as Hs.
    destruct (StorageReadOpener H l t) as [r evs1]. simpl in Hs.
    specialize (IH r (t ++ evs1)).
    destruct (runBuild E H (k r) (t ++ evs1)) as [a evs2]. simpl in *.
    apply Forall_app; auto.
Qed.

Lemma writeFiles_loop_blockIO noWrap paths :
  forall topLevel t,
    Forall (fun ev => isBlockIO ev = true) (snd (writeFiles_loop E H noWrap paths topLevel t)).
Proof.
  induction paths as [|p rest IH]; intros topLevel t; simpl.
  - constructor.
  - unfold bind.
    pose proof (runBuild_blockIO (BuildUnixFSRecursive E p) t) as Hb.
    destruct (runBuild E H (BuildUnixFSRecursive E p) t) as [[[l size] err] evs1].
    simpl in Hb.
    destruct err as [e|]; simpl.
    + rewrite app_nil_r. exact Hb.
    + destruct noWrap.
      * destruct l; simpl; rewrite app_nil_r; exact Hb.
      * destruct (BuildUnixFSDirectoryEntry E (Base p) (int64_of_uint64 size) l)
          as [entry [e|]]; simpl.
        -- rewrite app_nil_r. exact Hb.
        -- specialize (IH (topLevel ++ [entry]) (t ++ evs1)).
           destruct (writeFiles_loop E H false rest (topLevel ++ [entry]) (t ++ evs1)).
           simpl in *. apply Forall_app; auto.
Qed.

Lemma writeFiles_blockIO noWrap paths t :
  Forall (fun ev => isBlockIO ev = true) (snd (writeFiles E H noWrap paths t)).
Proof.
  unfold writeFiles, bind.
  pose proof (writeFiles_loop_blockIO noWrap paths [] t) as Hl.
  destruct (writeFiles_loop E H noWrap paths [] t) as [[res|topLevel] evs1]; simpl in Hl.
  - simpl. rewrite app_nil_r. exact Hl.
  - pose proof (runBuild_blockIO (BuildUnixFSDirectory E topLevel) (t ++ evs1)) as Hb.
    destruct (runBuild E H (BuildUnixFSDirectory E topLevel) (t ++ evs1))
      as [[[root size] err] evs2].
    simpl in Hb.
    destruct err as [e|]; [|destruct root]; simpl; rewrite app_nil_r;
      apply Forall_app; auto.
Qed.

End CarBuilderFacts.

(** ** [createCar] *)

Lemma createCar_run E H input output t :
  CarRun E output (fst (createCar E H input output t))
                  (snd (createCar E H input output t)).
Proof.
  assert (Hp : proxyRootOf E =
               NewCidV1 DagPb (fst (Encode E (Sum (fst (GetHasher E SHA2_256)) []) SHA2_256)))
    by reflexivity.
  unfold createCar.
  destruct (GetHasher E SHA2_256) as [hasher [e|]]; simpl in *; [constructor|].
  destruct (Encode E (Sum hasher []) SHA2_256) as [hash [e|]]; simpl in *; [constructor|].
  rewrite <- Hp. clear Hp.
  unfold bind, OpenReadWrite, Finalize, ReplaceRootsInFile, call.
  destruct (OpenReadWrite_res H t output [proxyRootOf E]) as [e|]; simpl;
    [constructor|].
  pose proof (writeFiles_blockIO E H true [input]
                (t ++ [EvOpenReadWrite output [proxyRootOf E] None])) as Hbody.
  destruct (writeFiles E H true [input] _) as [[root [e|]] body]; simpl in *.
  - rewrite app_nil_r. now constructor.
  - destruct (Finalize_res H _) as [e|]; simpl; now constructor.
Qed.

Lemma CarRun_accepted E output res evs :
  CarRun E output res evs -> exists s, storeRun NotOpened evs = Some s.
Proof.
  intros Hrun. destruct Hrun; simpl; eauto;
    rewrite ?storeRun_app, ?storeRun_blockIO by assumption; simpl; eauto.
Qed.

(** C7. Every run of [createCar] keeps to the two-phase root commitment:
    the calls it makes on the store are accepted by the automaton
    [NotOpened -> Open -> Finalized -> RootPatched]; no block is put after
    [Finalize]; [ReplaceRootsInFile] is the last call and the call before
    it is [Finalize]; and a run that returns a nil error ends with the
    store in [RootPatched]. *)
Theorem createCar_two_phase_order E H input output t :
  let evs := snd (createCar E H input output t) in
  (exists s, storeRun NotOpened evs = Some s) /\
  (forall pre e post,
      evs = pre ++ e :: post -> isFinalize e = true ->
      Forall (fun x => isPut x = false) post) /\
  (forall pre e post,
      evs = pre ++ e :: post -> isReplaceRoots e = true ->
      post = [] /\ exists pre' f, pre = pre' ++ [f] /\ isFinalize f = true) /\
  (snd (fst (createCar E H input output t)) = None ->
   storeRun NotOpened evs = Some RootPatched).
Proof.
  intros evs. subst evs.
  pose proof (createCar_run E H input output t) as Hrun.
  destruct (CarRun_accepted _ _ _ _ Hrun) as [s Hs].
  split; [eauto|]. split; [|split].
  - intros pre e post Heq He.
    eapply accepted_no_put_after_finalize; eauto.
  - intros pre e post Heq He. split.
    + rewrite Heq in Hs. rewrite storeRun_app in Hs.
      destruct (storeRun NotOpened pre) as [s1|]; [|discriminate].
      simpl in Hs. destruct e; try discriminate.
      destruct s1; simpl in Hs; try discriminate.
      eapply storeRun_RootPatched; eauto.
    + destruct (accepted_replace_after_finalize _ _ _ _ _ _ Hs Heq He)
        as [[Habs _] | Hok]; [discriminate | exact Hok].
  - destruct (createCar E H input output t) as [[root err] evs]. simpl in *.
    intros ->. inversion Hrun; subst; simpl.
    rewrite storeRun_app, storeRun_blockIO by assumption. reflexivity.
Qed.

(** C8. When a step of [createCar] before the root replacement fails (the
    hasher, the multihash encoding, the opening of the store, [writeFiles]
    or [Finalize] returns a non-nil error), [createCar] returns the empty
    string with a non-nil error, and it has not called
    [ReplaceRootsInFile]. *)
Theorem createCar_abort_returns_empty_root E H input output t :
  let hasherR := GetHasher E SHA2_256 in
  let hashR := Encode E (Sum (fst hasherR) []) SHA2_256 in
  let openR := OpenReadWrite H output [NewCidV1 DagPb (fst hashR)] t in
  let writeR := writeFiles E H true [input] (t ++ snd openR) in
  let finR := Finalize H ((t ++ snd openR) ++ snd writeR) in
  snd hasherR <> None \/ snd hashR <> None \/ fst openR <> None \/
  snd (fst writeR) <> None \/ fst finR <> None ->
  exists e,
    fst (createCar E H input output t) = ("", Some e) /\
    Forall (fun ev => isReplaceRoots ev = false) (snd (createCar E H input output t)).
Proof.
  cbv zeta. unfold createCar.
  destruct (GetHasher E SHA2_256) as [hasher [e|]]; simpl.
  { intros _. exists e. split; [reflexivity | constructor]. }
  destruct (Encode E (Sum hasher []) SHA2_256) as [hash [e|]]; simpl.
  { intros _. exists e. split; [reflexivity | constructor]. }
  unfold bind, OpenReadWrite, Finalize, ReplaceRootsInFile, call.
  destruct (OpenReadWrite_res H t output [NewCidV1 DagPb hash]) as [e|]; simpl.
  { intros _. exists e. split; [reflexivity | repeat constructor]. }
  pose proof (writeFiles_blockIO E H true [input]
                (t ++ [EvOpenReadWrite output [NewCidV1 DagPb hash] None])) as Hbody.
  destruct (writeFiles E H true [input] _) as [[root [e|]] body]; simpl in *.
  { intros _. exists e. split; [reflexivity|].
    constructor; [reflexivity|]. rewrite app_nil_r.
    eapply Forall_impl; [|exact Hbody].
    intros ev Hev. destruct ev; simpl in *; try discriminate; reflexivity. }
  destruct (Finalize_res H _) as [e|]; simpl.
  { intros _. exists e. split; [reflexivity|].
    constructor; [reflexivity|]. apply Forall_app. split.
    - eapply Forall_impl; [|exact Hbody].
      intros ev Hev. destruct ev; simpl in *; try discriminate; reflexivity.
    - repeat constructor. }
  intros [Hf | [Hf | [Hf | [Hf | Hf]]]]; congruence.
Qed.

Lemma createCar_abort_returns_empty_root_witness :
  exists e,
    fst (createCar Demo.extern (Demo.host None (Some Demo.diskFull) None false [] [])
           "a" "out.car" []) = ("", Some e) /\
    Forall (fun ev => isReplaceRoots ev = false)
      (snd (createCar Demo.extern (Demo.host None (Some Demo.diskFull) None false [] [])
              "a" "out.car" [])).
Proof.
  apply createCar_abort_returns_empty_root.
  right; right; right; right. simpl. discriminate.
Defined.

(** ** [writeFiles] *)

Section WriteFilesFacts.

Variable E : Extern.
Variable H : Host.

(** The loop runs to its end exactly when every path was built and turned
    into an entry. *)
Lemma writeFiles_loop_collected paths :
  forall acc t entries evs,
    Collected E H paths t entries evs ->
    writeFiles_loop E H false paths acc t = (inr (acc ++ entries), evs).
Proof.
  induction paths as [|p rest IH]; intros acc t entries evs Hc; inversion Hc; subst.
  - simpl. unfold ret. now rewrite app_nil_r.
  - simpl. unfold bind.
    match goal with Hb : runBuild _ _ _ _ = _ |- _ => rewrite Hb end.
    match goal with He : entryOf _ _ _ _ = _ |- _ => unfold entryOf in He; rewrite He end.
    match goal with Hr : Collected _ _ rest _ _ _ |- _ =>
      rewrite (IH (acc ++ [entry]) _ _ _ Hr) end.
    now rewrite <- app_assoc.
Qed.

Lemma writeFiles_loop_inr paths :
  forall acc t topLevel evs,
    writeFiles_loop E H false paths acc t = (inr topLevel, evs) ->
    exists entries, topLevel = acc ++ entries /\ Collected E H paths t entries evs.
Proof.
  induction paths as [|p rest IH]; intros acc t topLevel evs; simpl.
  - unfold ret. intros [= <- <-]. exists []. rewrite app_nil_r. split; [reflexivity | constructor].
  - unfold bind.
    destruct (runBuild E H (BuildUnixFSRecursive E p) t) as [[[l size] [e|]] evs1] eqn:Hb;
      [discriminate|].
    destruct (BuildUnixFSDirectoryEntry E (Base p) (int64_of_uint64 size) l)
      as [entry [e|]] eqn:He; [discriminate|].
    destruct (writeFiles_loop E H false rest (acc ++ [entry]) (t ++ evs1))
      as [r evs2] eqn:Hl.
    intros [= -> <-].
    destruct (IH _ _ _ _ Hl) as (entries & -> & Hc).
    exists (entry :: entries). split.
    + now rewrite <- app_assoc.
    + econstructor; eauto.
Qed.

Lemma Collected_length paths t entries evs :
  Collected E H paths t entries evs -> List.length entries = List.length paths.
Proof. induction 1; simpl; congruence. Qed.

End WriteFilesFacts.

(** C1. What [writeFiles] does with two failures.  When the build of the
    final directory node returns an error, [writeFiles] returns
    [cid.Undef] with a nil error; and the committer returns nil whatever
    the block store's [Put] answered. *)
Theorem writeFiles_swallows_errors E H :
  (forall noWrap paths t topLevel evs1 root size e evs2,
      writeFiles_loop E H noWrap paths [] t = (inr topLevel, evs1) ->
      runBuild E H (BuildUnixFSDirectory E topLevel) (t ++ evs1)
        = ((root, size, Some e), evs2) ->
      writeFiles E H noWrap paths t = ((Undef, None), evs1 ++ evs2)) /\
  (forall buf c blk t,
      NewBlockWithCid E buf c = (blk, None) ->
      commit E H buf (CidLink c) t = (None, [EvPut blk (Put_res H t blk)])).
Proof.
  split.
  - intros noWrap paths t topLevel evs1 root size e evs2 Hl Hb.
    unfold writeFiles, bind. rewrite Hl, Hb. simpl. now rewrite app_nil_r.
  - intros buf c blk t Hn. unfold commit. rewrite Hn. reflexivity.
Qed.

(** The failing inputs: two paths with the same base name, so that the
    directory builder refuses them; and a store whose every [Put] fails. *)
Lemma writeFiles_swallows_errors_witness :
  writeFiles Demo.extern Demo.okHost false ["x/a"; "y/a"] []
    = ((Undef, None),
       snd (writeFiles Demo.extern Demo.okHost false ["x/a"; "y/a"] [])) /\
  commit Demo.extern (Demo.host (Some Demo.diskFull) None None false [] [])
         (list_byte_of_string "a") (CidLink (Demo.cidOf (list_byte_of_string "a"))) []
    = (None, [EvPut (mkBlock (list_byte_of_string "a") (Demo.cidOf (list_byte_of_string "a")))
                    (Some Demo.diskFull)]).
Proof.
  destruct (writeFiles_swallows_errors Demo.extern Demo.okHost) as [Hdir _].
  destruct (writeFiles_swallows_errors Demo.extern
              (Demo.host (Some Demo.diskFull) None None false [] [])) as [_ Hput].
  split.
  - erewrite Hdir; [reflexivity | reflexivity | reflexivity].
  - apply Hput. reflexivity.
Defined.

(** On the route of [main]: every [Put] of the build fails, and
    [createCar] still returns a root with a nil error. *)
Example createCar_succeeds_when_every_Put_fails :
  fst (createCar Demo.extern (Demo.host (Some Demo.diskFull) None None false [] [])
         "a" "out.car" [])
    = (Demo.cidString (Demo.cidOf (list_byte_of_string "a")), None) /\
  Exists (fun ev => ev = EvPut (mkBlock (list_byte_of_string "a")
                                        (Demo.cidOf (list_byte_of_string "a")))
                               (Some Demo.diskFull))
    (snd (createCar Demo.extern (Demo.host (Some Demo.diskFull) None None false [] [])
            "a" "out.car" [])).
Proof.
  split; [reflexivity|].
  apply Exists_cons_tl, Exists_cons_hd. reflexivity.
Qed.

(** C3, as the code has it.  Without no-wrap, a [writeFiles] whose steps
    all succeed returns the CID of the directory node built over one entry
    per supplied path, in the order supplied, for any number of paths.
    With no-wrap, [writeFiles] returns at the first path: the result is the
    one for that path alone, its bare CID when it builds, however many
    paths follow. *)
Theorem writeFiles_root_by_noWrap E H :
  (forall paths t entries evs1 c size evs2,
      Collected E H paths t entries evs1 ->
      runBuild E H (BuildUnixFSDirectory E entries) (t ++ evs1)
        = ((CidLink c, size, None), evs2) ->
      writeFiles E H false paths t = ((c, None), evs1 ++ evs2) /\
      List.length entries = List.length paths) /\
  (forall p rest t,
      writeFiles E H true (p :: rest) t = writeFiles E H true [p] t) /\
  (forall p rest t c size evs,
      runBuild E H (BuildUnixFSRecursive E p) t = ((CidLink c, size, None), evs) ->
      writeFiles E H true (p :: rest) t = ((c, None), evs)).
Proof.
  split; [|split].
  - intros paths t entries evs1 c size evs2 Hc Hb. split.
    + unfold writeFiles, bind.
      rewrite (writeFiles_loop_collected E H paths [] t entries evs1 Hc). simpl.
      rewrite Hb. simpl. now rewrite app_nil_r.
    + eapply Collected_length; eauto.
  - intros p rest t. unfold writeFiles, bind. simpl. unfold bind.
    destruct (runBuild E H (BuildUnixFSRecursive E p) t) as [[[l size] [e|]] evs1];
      [reflexivity|].
    destruct l; reflexivity.
  - intros p rest t c size evs Hb. unfold writeFiles, bind. simpl. unfold bind.
    rewrite Hb. simpl. now rewrite !app_nil_r.
Qed.

Lemma writeFiles_root_by_noWrap_witness :
  (writeFiles Demo.extern Demo.okHost false ["a"; "b"] []
     = ((Demo.cidOf
           (x0a :: List.concat
              (map Demo.entryBytes
                 [mkPBLink "a" 1 (CidLink (Demo.cidOf (list_byte_of_string "a")));
                  mkPBLink "b" 1 (CidLink (Demo.cidOf (list_byte_of_string "b")))])),
         None),
        snd (writeFiles Demo.extern Demo.okHost false ["a"; "b"] []))) /\
  writeFiles Demo.extern Demo.okHost true ["a"; "b"] []
    = writeFiles Demo.extern Demo.okHost true ["a"] [] /\
  fst (writeFiles Demo.extern Demo.okHost true ["a"; "b"] [])
    = (Demo.cidOf (list_byte_of_string "a"), None).
Proof.
  destruct (writeFiles_root_by_noWrap Demo.extern Demo.okHost) as (Hdir & Hfirst & Hbare).
  split; [|split].
  - refine (proj1 (Hdir ["a"; "b"] [] _ _ _ _ _ _ _)).
    + eapply (collected_cons _ _ "a" ["b"] []); [reflexivity | reflexivity |].
      eapply (collected_cons _ _ "b" []); [reflexivity | reflexivity |].
      apply collected_nil.
    + reflexivity.
  - apply Hfirst.
  - erewrite Hbare; reflexivity.
Defined.

(** C3 as stated fails: with two paths and no-wrap, [writeFiles] returns
    the bare CID of the first path, which is not the CID of the directory
    over both (the one the same call returns without no-wrap), and the
    second path is never built. *)
Lemma writeFiles_two_paths_noWrap_counterexample :
  fst (writeFiles Demo.extern Demo.okHost true ["a"; "b"] [])
    = (Demo.cidOf (list_byte_of_string "a"), None) /\
  fst (writeFiles Demo.extern Demo.okHost true ["a"; "b"] [])
    <> fst (writeFiles Demo.extern Demo.okHost false ["a"; "b"] []) /\
  snd (writeFiles Demo.extern Demo.okHost true ["a"; "b"] [])
    = [EvPut (mkBlock (list_byte_of_string "a") (Demo.cidOf (list_byte_of_string "a"))) None].
Proof.
  split; [reflexivity|]. split; [|reflexivity].
  vm_compute. discriminate.
Qed.

(** ** Determinism of the build *)

Lemma app_eq_same_length {A} (l1 l2 l1' l2' : list A) :
  List.length l1 = List.length l2 -> l1 ++ l1' = l2 ++ l2' -> l1 = l2 /\ l1' = l2'.
Proof.
  revert l2. induction l1 as [|x l1 IH]; intros [|y l2]; simpl; try discriminate.
  - auto.
  - intros [= Hlen] [= -> Happ]. destruct (IH _ Hlen Happ) as [-> ->]. auto.
Qed.

Lemma getAnswers_app t1 t2 : getAnswers (t1 ++ t2) = getAnswers t1 ++ getAnswers t2.
Proof.
  induction t1 as [|e t1 IH]; simpl; [reflexivity|].
  destruct e; simpl; rewrite ?IH; reflexivity.
Qed.

(** What the committer returns is decided by the builder's packages alone;
    the store's answer to [Put] plays no part, and nothing is read. *)
Lemma lsStore_host_independent E H1 H2 data l t1 t2 :
  fst (lsStore E H1 data l t1) = fst (lsStore E H2 data l t2) /\
  getAnswers (snd (lsStore E H1 data l t1)) = [] /\
  getAnswers (snd (lsStore E H2 data l t2)) = [].
Proof.
  unfold lsStore. simpl. unfold commit.
  destruct l as [c|repr]; [|now repeat split].
  destruct (NewBlockWithCid E data c) as [blk [e|]]; now repeat split.
Qed.

(** What the read opener returns is decided by what the store answered. *)
Lemma StorageReadOpener_by_answer H1 H2 l t1 t2 :
  getAnswers (snd (StorageReadOpener H1 l t1)) = getAnswers (snd (StorageReadOpener H2 l t2)) ->
  fst (StorageReadOpener H1 l t1) = fst (StorageReadOpener H2 l t2).
Proof.
  unfold StorageReadOpener. destruct l as [c|repr]; [|reflexivity].
  unfold bind, Get, call. simpl.
  destruct (Get_res H1 t1 c) as [blk1 err1], (Get_res H2 t2 c) as [blk2 err2].
  destruct err1, err2; simpl; intros Heq; inversion Heq; subst; reflexivity.
Qed.

Lemma StorageReadOpener_answers H l t :
  List.length (getAnswers (snd (StorageReadOpener H l t))) =
  match l with CidLink _ => 1%nat | OtherLink _ => 0%nat end.
Proof.
  unfold StorageReadOpener. destruct l as [c|repr]; [|reflexivity].
  unfold bind, Get, call. simpl.
  destruct (Get_res H t c) as [blk [e|]]; reflexivity.
Qed.

(** Two runs of one builder call, on any two hosts and after any two
    histories, return the same value as soon as the store answered their
    reads alike. *)
Lemma runBuild_same_answers E H1 H2 {A} (b : Build A) :
  forall t1 t2,
    getAnswers (snd (runBuild E H1 b t1)) = getAnswers (snd (runBuild E H2 b t2)) ->
    fst (runBuild E H1 b t1) = fst (runBuild E H2 b t2).
Proof.
  induction b as [a | data l k IH | l k IH]; intros t1 t2; simpl.
  - reflexivity.
  - unfold bind.
    destruct (lsStore_host_independent E H1 H2 data l t1 t2) as (Hfst & Hg1 & Hg2).
    destruct (lsStore E H1 data l t1) as [err1 evs1].
    destruct (lsStore E H2 data l t2) as [err2 evs2].
    simpl in *. subst err2.
    specialize (IH err1 (t1 ++ evs1) (t2 ++ evs2)).
    destruct (runBuild E H1 (k err1) (t1 ++ evs1)) as [a1 evs1'].
    destruct (runBuild E H2 (k err1) (t2 ++ evs2)) as [a2 evs2'].
    simpl in *. rewrite !getAnswers_app, Hg1, Hg2. exact IH.
  - unfold bind.
    pose proof (StorageReadOpener_by_answer H1 H2 l t1 t2) as Hr.
    pose proof (StorageReadOpener_answers H1 l t1) as Hn1.
    pose proof (StorageReadOpener_answers H2 l t2) as Hn2.
    destruct (StorageReadOpener H1 l t1) as [r1 evs1].
    destruct (StorageReadOpener H2 l t2) as [r2 evs2].
    simpl in *.
    destruct (runBuild E H1 (k r1) (t1 ++ evs1)) as [a1 evs1'] eqn:Hb1.
    destruct (runBuild E H2 (k r2) (t2 ++ evs2)) as [a2 evs2'] eqn:Hb2.
    simpl. rewrite !getAnswers_app. intros Heq.
    assert (Hsplit : getAnswers evs1 = getAnswers evs2 /\
                     getAnswers evs1' = getAnswers evs2').
    { apply app_eq_same_length; [congruence | exact Heq]. }
    destruct Hsplit as [Hh Ht]. specialize (Hr Hh). subst r2.
    specialize (IH r1 (t1 ++ evs1) (t2 ++ evs2)).
    rewrite Hb1, Hb2 in IH. simpl in IH. auto.
Qed.

Lemma writeFiles_noWrap_single E H p t :
  writeFiles E H true [p] t =
  (bareResult E (fst (runBuild E H (BuildUnixFSRecursive E p) t)),
   snd (runBuild E H (BuildUnixFSRecursive E p) t)).
Proof.
  unfold writeFiles, bind. simpl. unfold bind.
  destruct (runBuild E H (BuildUnixFSRecursive E p) t) as [[[l size] [e|]] evs]; simpl.
  - now rewrite !app_nil_r.
  - destruct l; simpl; now rewrite !app_nil_r.
Qed.

(** C6. The top-level CID is a function of the input alone.  Two runs of
    [createCar] on the same input, with any two output paths, on any two
    hosts and after any histories, return the same root whenever both
    return a nil error and the store answered their reads alike (a builder
    that only writes reads nothing): the outcome of opening, putting,
    finalizing and patching has no part in the CID.  [calculateCid]
    consults no host at all: on streams that deliver the same bytes and
    end alike it returns the same result. *)
Theorem build_deterministic E :
  (forall H1 H2 input output1 output2 t1 t2,
      snd (fst (createCar E H1 input output1 t1)) = None ->
      snd (fst (createCar E H2 input output2 t2)) = None ->
      getAnswers (snd (createCar E H1 input output1 t1))
        = getAnswers (snd (createCar E H2 input output2 t2)) ->
      fst (fst (createCar E H1 input output1 t1))
        = fst (fst (createCar E H2 input output2 t2))) /\
  (forall r1 r2,
      stream_bytes r1 = stream_bytes r2 -> stream_err r1 = stream_err r2 ->
      calculateCid E r1 = calculateCid E r2).
Proof.
  split.
  - intros H1 H2 input output1 output2 t1 t2. unfold createCar.
    destruct (GetHasher E SHA2_256) as [hasher [e|]]; simpl; [discriminate|].
    destruct (Encode E (Sum hasher []) SHA2_256) as [hash [e|]]; simpl; [discriminate|].
    unfold bind, OpenReadWrite, Finalize, ReplaceRootsInFile, call.
    destruct (OpenReadWrite_res H1 t1 output1 _) as [e|]; simpl; [discriminate|].
    destruct (OpenReadWrite_res H2 t2 output2 _) as [e|]; simpl; [discriminate|].
    rewrite !writeFiles_noWrap_single.
    pose proof (runBuild_same_answers E H1 H2 (BuildUnixFSRecursive E input)
                  (t1 ++ [EvOpenReadWrite output1 [NewCidV1 DagPb hash] None])
                  (t2 ++ [EvOpenReadWrite output2 [NewCidV1 DagPb hash] None])) as Hsame.
    destruct (runBuild E H1 (BuildUnixFSRecursive E input) _) as [b1 evs1].
    destruct (runBuild E H2 (BuildUnixFSRecursive E input) _) as [b2 evs2].
    simpl in Hsame. simpl.
    destruct (bareResult E b1) as [root1 [e|]] eqn:Hr1; simpl; [discriminate|].
    destruct (bareResult E b2) as [root2 [e|]] eqn:Hr2; simpl; [discriminate|].
    destruct (Finalize_res H1 _) as [e|]; simpl; [discriminate|].
    destruct (Finalize_res H2 _) as [e|]; simpl; [discriminate|].
    intros _ _ Hg. rewrite !getAnswers_app in Hg. simpl in Hg.
    rewrite !app_nil_r in Hg. specialize (Hsame Hg). subst b2.
    congruence.
  - intros [b1 e1] [b2 e2]. simpl. intros -> ->. reflexivity.
Qed.

Lemma build_deterministic_witness :
  fst (fst (createCar Demo.extern Demo.okHost "a" "/tmp/a" []))
    = fst (fst (createCar Demo.extern
                  (Demo.host (Some Demo.diskFull) None None true [] [])
                  "a" "/var/tmp/out.car" [EvStdout "earlier run"])) /\
  calculateCid Demo.extern (mkStream (list_byte_of_string "hello") None)
    = calculateCid Demo.extern (mkStream (list_byte_of_string "hello") None).
Proof.
  destruct (build_deterministic Demo.extern) as [Hcar Hcid].
  split.
  - apply Hcar; reflexivity.
  - apply Hcid; reflexivity.
Defined.

(** ** [uploadFile] *)

(** C2, as the code has it.  When the file opens, its stat succeeds and
    [CreateUserAsset] answers without error that the asset already exists,
    [uploadFile] closes the file, starts no transfer and returns the
    non-nil error "asset <cid> already exist". *)
Theorem uploadFile_already_exists_is_an_error H carFilePath carCID fileName fileType t fi rsp :
  osOpen_res H t carFilePath = None ->
  fileStat_res H (t ++ [EvOsOpen carFilePath None]) carFilePath = (fi, None) ->
  CreateUserAsset_res H
    ((t ++ [EvOsOpen carFilePath None]) ++ [EvFileStat carFilePath None])
    (mkAssetProperty carCID fileName (fi_Size fi) fileType) = (rsp, None) ->
  AlreadyExists rsp = true ->
  uploadFile H carFilePath carCID fileName fileType t =
    (Some (errorString ("asset " ++ carCID ++ " already exist")),
     [EvOsOpen carFilePath None;
      EvFileStat carFilePath None;
      EvCreateUserAsset (mkAssetProperty carCID fileName (fi_Size fi) fileType) rsp None;
      EvFileClose carFilePath]) /\
  Forall (fun ev => isTransfer ev = false)
    (snd (uploadFile H carFilePath carCID fileName fileType t)).
Proof.
  intros Hopen Hstat Hcreate Hexists.
  assert (Hrun : uploadFile H carFilePath carCID fileName fileType t =
    (Some (errorString ("asset " ++ carCID ++ " already exist")),
     [EvOsOpen carFilePath None;
      EvFileStat carFilePath None;
      EvCreateUserAsset (mkAssetProperty carCID fileName (fi_Size fi) fileType) rsp None;
      EvFileClose carFilePath])).
  { unfold uploadFile, bind, osOpen, fileStat, CreateUserAsset, fileClose, call, emit.
    rewrite Hopen. simpl. rewrite Hstat. simpl. rewrite Hcreate. simpl.
    rewrite Hexists. reflexivity. }
  split; [exact Hrun|].
  rewrite Hrun. simpl. repeat constructor.
Qed.

Lemma uploadFile_already_exists_is_an_error_witness :
  uploadFile (Demo.host None None None true [] []) "/tmp/a.car" "bafy" "a" "file" [] =
    (Some (errorString "asset bafy already exist"),
     [EvOsOpen "/tmp/a.car" None;
      EvFileStat "/tmp/a.car" None;
      EvCreateUserAsset (mkAssetProperty "bafy" "a" 5 "file")
        (mkCreateAssetRsp "https://storage/upload" "token" true) None;
      EvFileClose "/tmp/a.car"]) /\
  Forall (fun ev => isTransfer ev = false)
    (snd (uploadFile (Demo.host None None None true [] []) "/tmp/a.car" "bafy" "a" "file" [])).
Proof.
  apply (uploadFile_already_exists_is_an_error
           (Demo.host None None None true [] []) "/tmp/a.car" "bafy" "a" "file" []
           (mkFileInfo "a.car" 5) (mkCreateAssetRsp "https://storage/upload" "token" true));
    reflexivity.
Defined.

(** C2 as stated fails: the scheduler reports the asset as already
    existing, without error, and [uploadFile] returns a non-nil error. *)
Lemma uploadFile_already_exists_counterexample :
  CreateUserAsset_res (Demo.host None None None true [] [])
    [EvOsOpen "/tmp/a.car" None; EvFileStat "/tmp/a.car" None]
    (mkAssetProperty "bafy" "a" 5 "file")
    = (mkCreateAssetRsp "https://storage/upload" "token" true, None) /\
  fst (uploadFile (Demo.host None None None true [] []) "/tmp/a.car" "bafy" "a" "file" [])
    = Some (errorString "asset bafy already exist") /\
  fst (uploadFile (Demo.host None None None true [] []) "/tmp/a.car" "bafy" "a" "file" [])
    <> None.
Proof. repeat split; try reflexivity. discriminate. Qed.

(** When the asset does not exist yet and every step succeeds, the
    transfer takes place and [uploadFile] returns nil. *)
Example uploadFile_transfers_a_new_asset :
  fst (uploadFile Demo.okHost "/tmp/a.car" "bafy" "a" "file" []) = None /\
  Exists (fun ev => isTransfer ev = true)
    (snd (uploadFile Demo.okHost "/tmp/a.car" "bafy" "a" "file" [])).
Proof.
  split; [reflexivity|].
  do 5 apply Exists_cons_tl. apply Exists_cons_hd. reflexivity.
Qed.

(** ** [ProgressReader] *)

Section ProgressReaderFacts.

Context {R S : Type} `{RD : Reader R}.

Lemma ProgressReader_Read_eq (pr : ProgressReader R S) p s :
  ProgressReader_Read pr p s =
  (fst (Read (pr_Reader pr) p),
   mkProgressReader (snd (Read (pr_Reader pr) p)) (Reporter pr),
   Reporter pr (snd (fst (fst (Read (pr_Reader pr) p)))) s).
Proof.
  unfold ProgressReader_Read, int64_of_int.
  destruct (Read (pr_Reader pr) p) as [[[p' n] err] r']. reflexivity.
Qed.

Lemma readCalls_Reporter (pr : ProgressReader R S) ps :
  forall s, Reporter (snd (fst (readCalls pr ps s))) = Reporter pr.
Proof.
  revert pr. induction ps as [|p rest IH]; intros pr s; simpl; [reflexivity|].
  rewrite ProgressReader_Read_eq.
  specialize (IH (mkProgressReader (snd (Read (pr_Reader pr) p)) (Reporter pr))
                 (Reporter pr (snd (fst (fst (Read (pr_Reader pr) p)))) s)).
  destruct (readCalls _ rest _) as [[ress pr''] s'']. simpl in *. exact IH.
Qed.

Lemma readCalls_direct (pr : ProgressReader R S) ps :
  forall s,
    fst (fst (readCalls pr ps s)) = fst (readCallsDirect (pr_Reader pr) ps) /\
    pr_Reader (snd (fst (readCalls pr ps s))) = snd (readCallsDirect (pr_Reader pr) ps).
Proof.
  revert pr. induction ps as [|p rest IH]; intros pr s; simpl; [auto|].
  rewrite ProgressReader_Read_eq.
  specialize (IH (mkProgressReader (snd (Read (pr_Reader pr) p)) (Reporter pr))
                 (Reporter pr (snd (fst (fst (Read (pr_Reader pr) p)))) s)).
  simpl in IH.
  destruct (Read (pr_Reader pr) p) as [res r']. simpl in *.
  destruct (readCalls _ rest _) as [[ress pr''] s''].
  destruct (readCallsDirect r' rest) as [ress' r'']. simpl in *.
  destruct IH as [-> ->]. auto.
Qed.

(** The callback's state after a run of calls: the callback applied to
    each returned count, once each, in the order of the calls. *)
Lemma readCalls_reports (pr : ProgressReader R S) ps :
  forall s,
    snd (readCalls pr ps s) =
    fold_left (fun st n => Reporter pr n st) (counts (fst (fst (readCalls pr ps s)))) s.
Proof.
  revert pr. induction ps as [|p rest IH]; intros pr s; simpl; [reflexivity|].
  rewrite ProgressReader_Read_eq.
  specialize (IH (mkProgressReader (snd (Read (pr_Reader pr) p)) (Reporter pr))
                 (Reporter pr (snd (fst (fst (Read (pr_Reader pr) p)))) s)).
  destruct (readCalls _ rest _) as [[ress pr''] s'']. simpl in *. exact IH.
Qed.

Lemma readCalls_length (pr : ProgressReader R S) ps :
  forall s, List.length (fst (fst (readCalls pr ps s))) = List.length ps.
Proof.
  revert pr. induction ps as [|p rest IH]; intros pr s; simpl; [reflexivity|].
  rewrite ProgressReader_Read_eq.
  specialize (IH (mkProgressReader (snd (Read (pr_Reader pr) p)) (Reporter pr))
                 (Reporter pr (snd (fst (fst (Read (pr_Reader pr) p)))) s)).
  destruct (readCalls _ rest _) as [[ress pr''] s'']. simpl in *. congruence.
Qed.

End ProgressReaderFacts.

Lemma fold_logReporter ns : forall log,
  fold_left (fun st n => logReporter n st) ns log = log ++ ns.
Proof.
  induction ns as [|n ns IH]; intros log; simpl.
  - now rewrite app_nil_r.
  - rewrite IH. unfold logReporter. now rewrite <- app_assoc.
Qed.

(** C9. [ProgressReader.Read] returns what the wrapped reader's [Read]
    returned on the same buffer: the same count, the same error, the buffer
    as the wrapped reader left it; the wrapped reader is advanced by that
    one call and by nothing else, whatever the callback does.  Hence a run
    of calls through the [ProgressReader] returns, call by call, what the
    same run returns on the bare reader, and leaves it in the same state. *)
Theorem ProgressReader_Read_transparent {R S : Type} `{RD : Reader R}
    (pr : ProgressReader R S) :
  (forall p s,
      fst (fst (ProgressReader_Read pr p s)) = fst (Read (pr_Reader pr) p) /\
      pr_Reader (snd (fst (ProgressReader_Read pr p s))) = snd (Read (pr_Reader pr) p) /\
      Reporter (snd (fst (ProgressReader_Read pr p s))) = Reporter pr) /\
  (forall ps s,
      fst (fst (readCalls pr ps s)) = fst (readCallsDirect (pr_Reader pr) ps) /\
      pr_Reader (snd (fst (readCalls pr ps s))) = snd (readCallsDirect (pr_Reader pr) ps)).
Proof.
  split.
  - intros p s. rewrite ProgressReader_Read_eq. simpl. auto.
  - intros ps s. apply readCalls_direct.
Qed.

(** C10. Every call of [ProgressReader.Read] invokes the callback exactly
    once, with the count the wrapped reader returned, whatever error came
    with it; a recording callback gains exactly that one entry.  A wrapped
    reader may return zero bytes while bytes remain: a [bytes.Buffer] that
    still holds data answers [(0, nil)] to an empty buffer [p], and the
    callback is then told 0 before the stream has ended.  A failing read is
    reported as well: the [(0, io.EOF)] of an empty [bytes.Buffer] reports 0. *)
Theorem Reporter_called_once_per_Read :
  (forall (R S : Type) (RD : Reader R) (pr : ProgressReader R S) p s,
      snd (ProgressReader_Read pr p s)
        = Reporter pr (snd (fst (fst (Read (pr_Reader pr) p)))) s) /\
  (forall (R : Type) (RD : Reader R) (r : R) p log,
      snd (ProgressReader_Read (mkProgressReader r logReporter) p log)
        = log ++ [snd (fst (fst (Read r p)))]) /\
  (forall (b : Buffer) x log,
      ProgressReader_Read (mkProgressReader (x :: b : Buffer) logReporter) [] log
        = (([], 0, None), mkProgressReader (x :: b : Buffer) logReporter, log ++ [0])) /\
  (forall y p log,
      ProgressReader_Read (mkProgressReader ([] : Buffer) logReporter) (y :: p) log
        = ((y :: p, 0, Some EOF), mkProgressReader ([] : Buffer) logReporter, log ++ [0])).
Proof.
  split; [|split; [|split]].
  - intros. rewrite ProgressReader_Read_eq. reflexivity.
  - intros. rewrite ProgressReader_Read_eq. reflexivity.
  - intros. reflexivity.
  - intros. reflexivity.
Qed.

Lemma Buffer_Read_data (x : byte) (b : list byte) (len : nat) :
  let n := Nat.min len (S (List.length b)) in
  Read (x :: b : Buffer) (repeat x00 len) =
  ((firstn n (x :: b) ++ skipn n (repeat x00 len), Z.of_nat n, None), skipn n (x :: b)).
Proof.
  unfold Read, Buffer_Reader, copy. rewrite repeat_length. reflexivity.
Qed.

Lemma drain_cons {R S : Type} `{RD : Reader R} (pr : ProgressReader R S) len rest s :
  drain pr (len :: rest) s =
  let res := fst (Read (pr_Reader pr) (repeat x00 len)) in
  let pr' := mkProgressReader (snd (Read (pr_Reader pr) (repeat x00 len))) (Reporter pr) in
  let s' := Reporter pr (snd (fst res)) s in
  match snd res with
  | Some _ => ([res], pr', s')
  | None =>
      (res :: fst (fst (drain pr' rest s')), snd (fst (drain pr' rest s')),
       snd (drain pr' rest s'))
  end.
Proof.
  cbn [drain]. rewrite ProgressReader_Read_eq. cbv zeta.
  destruct (snd (fst (Read (pr_Reader pr) (repeat x00 len)))); [reflexivity|].
  destruct (drain _ rest _) as [[ress pr''] s'']. reflexivity.
Qed.

(** Streaming a [bytes.Buffer] to its end through a [ProgressReader]: the
    reads return positive counts that add up to the buffer's length, then
    one read returns 0 with io.EOF, and the callback has recorded just
    these counts, in order. *)
Lemma drain_Buffer sizes :
  forall (b : Buffer) log,
    Forall (fun n => (0 < n)%nat) sizes ->
    (List.length b < List.length sizes)%nat ->
    exists cs,
      snd (drain (mkProgressReader b logReporter) sizes log) = log ++ cs ++ [0] /\
      counts (fst (fst (drain (mkProgressReader b logReporter) sizes log))) = cs ++ [0] /\
      Forall (fun c => 0 < c) cs /\
      fold_right Z.add 0 cs = Z.of_nat (List.length b).
Proof.
  induction sizes as [|len rest IH]; intros b log Hpos Hlen; simpl in Hlen; [lia|].
  inversion Hpos as [|? ? Hlen0 Hrest]; subst.
  destruct b as [|x b].
  - destruct len as [|len]; [lia|].
    exists []. simpl. repeat split; constructor.
  - rewrite drain_cons.
    cbn [pr_Reader Reporter]. rewrite Buffer_Read_data. cbv zeta. cbn [fst snd].
    set (n := Nat.min len (S (List.length b))).
    assert (Hn : (1 <= n <= S (List.length b))%nat) by (unfold n; lia).
    specialize (IH (skipn n (x :: b)) (logReporter (Z.of_nat n) log) Hrest).
    assert (Hsk : List.length (skipn n (x :: b)) = (S (List.length b) - n)%nat)
      by (rewrite length_skipn; reflexivity).
    destruct IH as (cs & Hlog & Hcounts & Hcs & Hsum).
    { rewrite Hsk. simpl in Hlen. lia. }
    destruct (drain (mkProgressReader (skipn n (x :: b)) logReporter) rest
                (logReporter (Z.of_nat n) log)) as [[ress pr''] s''].
    cbn [fst snd] in *.
    exists (Z.of_nat n :: cs). repeat split.
    + rewrite Hlog. unfold logReporter. rewrite <- app_assoc. reflexivity.
    + unfold counts in *. simpl. now rewrite Hcounts.
    + constructor; [lia | exact Hcs].
    + simpl fold_right. rewrite Hsum, Hsk. simpl List.length. lia.
Qed.

(** C4, as the code has it.  The callback is invoked once per [Read] call
    and never otherwise: after a run of calls a recording callback holds
    exactly the counts these calls returned, in order, one per call.  A
    report of 0 is the report of a call that returned 0 bytes: streaming a
    [bytes.Buffer] (the body [uploadFileWithForm] sends) to its end gives
    the positive counts of the data reads, which add up to its length,
    followed by the 0 of the read that meets io.EOF. *)
Theorem reports_are_the_counts_of_the_Read_calls :
  (forall (R : Type) (RD : Reader R) (r : R) ps log,
      snd (readCalls (mkProgressReader r logReporter) ps log)
        = log ++ counts (fst (fst (readCalls (mkProgressReader r logReporter) ps log))) /\
      List.length (counts (fst (fst (readCalls (mkProgressReader r logReporter) ps log))))
        = List.length ps) /\
  (forall (b : Buffer) sizes log,
      Forall (fun n => (0 < n)%nat) sizes ->
      (List.length b < List.length sizes)%nat ->
      exists cs,
        snd (drain (mkProgressReader b logReporter) sizes log) = log ++ cs ++ [0] /\
        counts (fst (fst (drain (mkProgressReader b logReporter) sizes log))) = cs ++ [0] /\
        Forall (fun c => 0 < c) cs /\
        fold_right Z.add 0 cs = Z.of_nat (List.length b)).
Proof.
  split.
  - intros R RD r ps log. split.
    + rewrite readCalls_reports. cbn [Reporter]. apply fold_logReporter.
    + unfold counts. rewrite length_map. apply readCalls_length.
  - intros b sizes log. apply drain_Buffer.
Qed.

Lemma reports_are_the_counts_of_the_Read_calls_witness :
  snd (readCalls (mkProgressReader (list_byte_of_string "hello" : Buffer) logReporter)
         [repeat x00 2; repeat x00 2; repeat x00 2] [])
    = [2; 2; 1] /\
  exists cs,
    snd (drain (mkProgressReader (list_byte_of_string "hello" : Buffer) logReporter)
           [2; 2; 2; 2; 2; 2]%nat []) = [] ++ cs ++ [0] /\
    counts (fst (fst (drain (mkProgressReader (list_byte_of_string "hello" : Buffer)
                               logReporter) [2; 2; 2; 2; 2; 2]%nat []))) = cs ++ [0] /\
    Forall (fun c => 0 < c) cs /\
    fold_right Z.add 0 cs = Z.of_nat (List.length (list_byte_of_string "hello")).
Proof.
  destruct reports_are_the_counts_of_the_Read_calls as [Hcalls Hdrain].
  split.
  - rewrite (proj1 (Hcalls _ _ _ _ _)). reflexivity.
  - apply Hdrain.
    + repeat constructor.
    + simpl. lia.
Defined.

(** C4 as stated fails: the reads below deliver all 3 bytes of the stream,
    in one call of size 3, and the callback is invoked once, with 3; no
    invocation with 0 follows, neither when the consumer stops after the
    data nor when the wrapped reader hands out io.EOF together with the
    last bytes and the stream is thereby read to its end. *)
Lemma no_final_zero_report_counterexample :
  readCalls (mkProgressReader (list_byte_of_string "abc" : Buffer) logReporter)
    [repeat x00 4] []
    = ([(list_byte_of_string "abc" ++ [x00], 3, None)],
       mkProgressReader ([] : Buffer) logReporter, [3]) /\
  drain (mkProgressReader (mkEagerEOF (list_byte_of_string "abc")) logReporter)
    [4; 4]%nat []
    = ([(list_byte_of_string "abc" ++ [x00], 3, Some EOF)],
       mkProgressReader (mkEagerEOF []) logReporter, [3]) /\
  [3] <> [3] ++ [0].
Proof. repeat split. discriminate. Qed.

(** ** The placeholder and the true root, as far as [createCar] decides

    [createCar] declares one root when it opens the store and replaces it
    by one root, in the same file: the placeholder is the CIDv1 with codec
    DagPb over the multihash (code SHA2_256) of the hasher's digest of the
    empty input. *)
Lemma createCar_declares_and_replaces_one_root E H input output t :
  forall path roots err,
    In (EvOpenReadWrite path roots err) (snd (createCar E H input output t)) \/
    In (EvReplaceRootsInFile path roots err) (snd (createCar E H input output t)) ->
    path = output /\ List.length roots = 1%nat.
Proof.
  intros path roots err Hin.
  pose proof (createCar_run E H input output t) as Hrun.
  assert (Hbody : forall body,
             Forall (fun ev => isBlockIO ev = true) body ->
             ~ In (EvOpenReadWrite path roots err) body /\
             ~ In (EvReplaceRootsInFile path roots err) body).
  { intros body Hb. rewrite Forall_forall in Hb.
    split; intros Hi; apply Hb in Hi; discriminate. }
  destruct Hrun as [e | e | e body Hb | e body Hb | root err' body Hb];
    simpl in Hin; rewrite ?in_app_iff in Hin; simpl in Hin;
    try destruct (Hbody body Hb) as [Hno1 Hno2];
    repeat match goal with
           | Hx : _ \/ _ |- _ => destruct Hx
           | Hx : False |- _ => destruct Hx
           | Hx : EvOpenReadWrite _ _ _ = _ |- _ => inversion Hx; subst; clear Hx
           | Hx : EvReplaceRootsInFile _ _ _ = _ |- _ => inversion Hx; subst; clear Hx
           | Hx : EvFinalize _ = _ |- _ => discriminate Hx
           end; auto; try contradiction.
Qed.

(** What a transfer prints: the running total after each data read of the
    transport, then the line of the read that meets io.EOF. *)
Example uploadFileWithForm_progress_lines :
  filter (fun ev => match ev with EvStdout _ => true | _ => false end)
    (snd (uploadFileWithForm Demo.okHost "/tmp/a.car" "https://storage/upload" "token" []))
  = [EvStdout ("progress 4/5" ++ nl);
     EvStdout ("progress 5/5" ++ nl);
     EvStdout ("upload complete" ++ nl);
     EvStdout ("Response status: 200 OK" ++ nl);
     EvStdout ("Response body: " ++ nl)].
Proof. reflexivity. Qed.

(* ================================================================== *)
(** * Further properties of the code *)

(** ** [ProgressReader] wrapped again, and the bytes it passes on *)

Lemma readCallsDirect_ProgressReader {R S : Type} `{RD : Reader R}
    (pr : ProgressReader R S) ps :
  forall s,
    readCallsDirect (pr, s) ps =
    (fst (fst (readCalls pr ps s)), (snd (fst (readCalls pr ps s)), snd (readCalls pr ps s))).
Proof.
  revert pr. induction ps as [|p rest IH]; intros pr s; [reflexivity|].
  cbn [readCallsDirect readCalls].
  unfold Read at 1, ProgressReader_Reader. cbn [fst snd].
  destruct (ProgressReader_Read pr p s) as [[res pr'] s'].
  rewrite IH.
  destruct (readCalls pr' rest s') as [[ress pr''] s'']. reflexivity.
Qed.

(** A [ProgressReader] around a [ProgressReader]: the calls return what
    the innermost reader returns, and both callbacks are applied to the
    same counts, once per call, in order. *)
Theorem nested_ProgressReaders_report_alike {R S1 S2 : Type} `{RD : Reader R}
    (r : R) (f : Z -> S1 -> S1) (g : Z -> S2 -> S2) ps s1 s2 :
  let run := readCalls (mkProgressReader (mkProgressReader r f, s1) g) ps s2 in
  let ress := fst (fst run) in
  ress = fst (readCallsDirect r ps) /\
  pr_Reader (fst (pr_Reader (snd (fst run)))) = snd (readCallsDirect r ps) /\
  snd (pr_Reader (snd (fst run))) = fold_left (fun st n => f n st) (counts ress) s1 /\
  snd run = fold_left (fun st n => g n st) (counts ress) s2.
Proof.
  cbv zeta.
  destruct (readCalls_direct (mkProgressReader (mkProgressReader r f, s1) g) ps s2)
    as [Hres Hrd].
  pose proof (readCalls_reports (mkProgressReader (mkProgressReader r f, s1) g) ps s2)
    as Hout.
  cbn [pr_Reader Reporter] in *.
  rewrite readCallsDirect_ProgressReader in Hres, Hrd. cbn [fst snd] in *.
  destruct (readCalls_direct (mkProgressReader r f) ps s1) as [Hres1 Hrd1].
  pose proof (readCalls_reports (mkProgressReader r f) ps s1) as Hin.
  cbn [pr_Reader Reporter] in *.
  rewrite Hrd. cbn [fst snd]. rewrite Hres.
  repeat split; try assumption.
  rewrite <- Hres. exact Hout.
Qed.

Lemma delivered_cons res ress :
  delivered (res :: ress) = firstn (Z.to_nat (snd (fst res))) (fst (fst res)) ++ delivered ress.
Proof. reflexivity. Qed.

Lemma Buffer_Read_empty (len : nat) :
  Read ([] : Buffer) (repeat x00 len) =
  ((repeat x00 len, 0, match len with O => None | S _ => Some EOF end), ([] : Buffer)).
Proof. destruct len; reflexivity. Qed.

Lemma firstn_copied (n : nat) (src p : list byte) :
  (n <= List.length src)%nat ->
  firstn (Z.to_nat (Z.of_nat n)) (firstn n src ++ skipn n p) = firstn n src.
Proof.
  intros Hn. rewrite Nat2Z.id.
  rewrite firstn_app, firstn_firstn, Nat.min_id.
  rewrite length_firstn, Nat.min_l by exact Hn.
  rewrite Nat.sub_diag. simpl. now rewrite app_nil_r.
Qed.

(** Reading a [bytes.Buffer] through a [ProgressReader] neither loses nor
    repeats a byte: what the calls delivered, followed by what the buffer
    still holds, is the body. *)
Lemma drain_Buffer_delivered {St : Type} (rep : Z -> St -> St) sizes :
  forall (b : Buffer) s,
    delivered (fst (fst (drain (mkProgressReader b rep) sizes s)))
      ++ pr_Reader (snd (fst (drain (mkProgressReader b rep) sizes s))) = b.
Proof.
  induction sizes as [|len rest IH]; intros b s.
  - simpl. reflexivity.
  - rewrite drain_cons. cbn [pr_Reader Reporter]. cbv zeta.
    destruct b as [|x b].
    + rewrite Buffer_Read_empty. cbn [fst snd].
      destruct len as [|len]; cbn [fst snd].
      * rewrite delivered_cons. cbn [fst snd]. simpl firstn. simpl app. apply IH.
      * reflexivity.
    + rewrite Buffer_Read_data. cbv zeta. cbn [fst snd].
      set (n := Nat.min len (S (List.length b))).
      rewrite delivered_cons. cbn [fst snd].
      rewrite firstn_copied by (unfold n; cbn [List.length]; lia).
      rewrite <- app_assoc, IH. apply firstn_skipn.
Qed.

Lemma drain_Buffer_exhausts {St : Type} (rep : Z -> St -> St) sizes :
  forall (b : Buffer) s,
    Forall (fun n => (0 < n)%nat) sizes ->
    (List.length b < List.length sizes)%nat ->
    pr_Reader (snd (fst (drain (mkProgressReader b rep) sizes s))) = [] /\
    exists ress p,
      fst (fst (drain (mkProgressReader b rep) sizes s)) = ress ++ [(p, 0, Some EOF)].
Proof.
  induction sizes as [|len rest IH]; intros b s Hpos Hlen; simpl in Hlen; [lia|].
  inversion Hpos as [|? ? Hlen0 Hrest]; subst.
  rewrite drain_cons. cbn [pr_Reader Reporter]. cbv zeta.
  destruct b as [|x b].
  - rewrite Buffer_Read_empty. destruct len as [|len]; [lia|]. cbn [fst snd].
    split; [reflexivity|]. exists [], (repeat x00 (S len)). reflexivity.
  - rewrite Buffer_Read_data. cbv zeta. cbn [fst snd].
    set (n := Nat.min len (S (List.length b))).
    assert (Hsk : (List.length (skipn n (x :: b)) < List.length rest)%nat).
    { rewrite length_skipn. unfold n. cbn [List.length] in *. lia. }
    destruct (IH (skipn n (x :: b)) (rep (Z.of_nat n) s) Hrest Hsk)
      as (Hempty & ress & p & Hress).
    split; [exact Hempty|].
    rewrite Hress. eexists (_ :: ress), p. reflexivity.
Qed.

(** The body reaches the transport whole.  However the reads are sized,
    the bytes delivered so far and the bytes left in the buffer make up
    the body; read with non-empty buffers until io.EOF, the bytes
    delivered are the body, the buffer is empty and the last call returned
    [(0, io.EOF)].  The callback has no part in it. *)
Theorem ProgressReader_delivers_the_body {St : Type} (rep : Z -> St -> St)
    (b : Buffer) sizes s :
  let run := drain (mkProgressReader b rep) sizes s in
  delivered (fst (fst run)) ++ pr_Reader (snd (fst run)) = b /\
  (Forall (fun n => (0 < n)%nat) sizes ->
   (List.length b < List.length sizes)%nat ->
   delivered (fst (fst run)) = b /\
   pr_Reader (snd (fst run)) = [] /\
   exists ress p, fst (fst run) = ress ++ [(p, 0, Some EOF)]).
Proof.
  cbv zeta. split.
  - apply drain_Buffer_delivered.
  - intros Hpos Hlen.
    destruct (drain_Buffer_exhausts rep sizes b s Hpos Hlen) as [Hempty Hlast].
    pose proof (drain_Buffer_delivered rep sizes b s) as Hd.
    rewrite Hempty, app_nil_r in Hd. auto.
Qed.

Lemma ProgressReader_delivers_the_body_witness :
  delivered (fst (fst (drain (mkProgressReader (list_byte_of_string "hello" : Buffer)
                                logReporter) [2; 0; 2; 2; 2]%nat [])))
    = list_byte_of_string "hello" /\
  delivered (fst (fst (drain (mkProgressReader (list_byte_of_string "hello" : Buffer)
                                logReporter) [2; 2; 2; 2; 2; 2]%nat [])))
    = list_byte_of_string "hello".
Proof.
  split.
  - pose proof (proj1 (ProgressReader_delivers_the_body logReporter
                         (list_byte_of_string "hello") [2; 0; 2; 2; 2]%nat [])) as Hd.
    cbv zeta in Hd.
    assert (Hrest : pr_Reader (snd (fst (drain
               (mkProgressReader (list_byte_of_string "hello" : Buffer) logReporter)
               [2; 0; 2; 2; 2]%nat []))) = []) by reflexivity.
    rewrite Hrest, app_nil_r in Hd. exact Hd.
  - apply (proj2 (ProgressReader_delivers_the_body logReporter
                    (list_byte_of_string "hello") [2; 2; 2; 2; 2; 2]%nat [])).
    + repeat constructor.
    + simpl. lia.
Defined.

(** ** What a transfer prints *)

Lemma int64_add_exact a b :
  0 <= a -> 0 <= b -> a + b < 2 ^ 63 -> int64_add a b = a + b.
Proof.
  intros Ha Hb Hab. unfold int64_add. cbv zeta.
  rewrite Z.mod_small by lia.
  destruct (Z.ltb_spec (a + b) (2 ^ 63)); [reflexivity | lia].
Qed.

Lemma uploadReporter_data total r dong out :
  0 < r -> 0 <= dong -> dong + r < 2 ^ 63 ->
  uploadReporter total r (dong, out) = (dong + r, out ++ [progressLine total (dong + r)]).
Proof.
  intros Hr Hd Hsum. unfold uploadReporter, progressLine.
  destruct (Z.gtb_spec r 0); [|lia].
  rewrite int64_add_exact by lia. reflexivity.
Qed.

Lemma uploadReporter_zero total dong out :
  uploadReporter total 0 (dong, out) = (dong, out ++ [completeLine]).
Proof. reflexivity. Qed.

(** The lines of a transfer.  A body of [T] bytes ([T] below 2^63, as a
    Go [int] is), read with non-empty buffers until io.EOF, prints one
    progress line per data read, showing the running total of the counts
    over [totalSize], and then the line "upload complete", once; the
    counts are positive and add up to [T], so [dongSize] ends at
    [dongSize + T] and the last progress line of a fresh transfer shows
    the whole body. *)
Theorem transfer_prints_running_totals sizes :
  forall (b : Buffer) total dong out,
    Forall (fun n => (0 < n)%nat) sizes ->
    (List.length b < List.length sizes)%nat ->
    0 <= dong ->
    dong + Z.of_nat (List.length b) < 2 ^ 63 ->
    exists cs,
      Forall (fun c => 0 < c) cs /\
      fold_right Z.add 0 cs = Z.of_nat (List.length b) /\
      snd (drain (mkProgressReader b (uploadReporter total)) sizes (dong, out))
        = (dong + Z.of_nat (List.length b),
           out ++ map (progressLine total) (runningTotals dong cs) ++ [completeLine]).
Proof.
  induction sizes as [|len rest IH]; intros b total dong out Hpos Hlen Hdong Hfit;
    simpl in Hlen; [lia|].
  inversion Hpos as [|? ? Hlen0 Hrest]; subst.
  rewrite drain_cons. cbn [pr_Reader Reporter]. cbv zeta.
  destruct b as [|x b].
  - rewrite Buffer_Read_empty. destruct len as [|len]; [lia|]. cbn [fst snd].
    exists []. repeat split; [constructor|].
    rewrite uploadReporter_zero. cbn [List.length]. f_equal. lia.
  - rewrite Buffer_Read_data. cbv zeta. cbn [fst snd].
    set (n := Nat.min len (S (List.length b))).
    assert (Hn : (1 <= n <= S (List.length b))%nat) by (unfold n; lia).
    assert (Hsk : List.length (skipn n (x :: b)) = (S (List.length b) - n)%nat)
      by (rewrite length_skipn; reflexivity).
    cbn [List.length] in Hfit, Hlen.
    rewrite uploadReporter_data by lia.
    destruct (IH (skipn n (x :: b)) total (dong + Z.of_nat n)
                 (out ++ [progressLine total (dong + Z.of_nat n)]) Hrest)
      as (cs & Hcs & Hsum & Hrun); [lia | lia | lia |].
    exists (Z.of_nat n :: cs). split; [constructor; [lia | exact Hcs]|].
    split; [cbn [fold_right List.length]; lia|].
    eapply eq_trans; [exact Hrun|]. f_equal.
    + rewrite Hsk. cbn [List.length]. lia.
    + cbn [runningTotals map]. now rewrite <- app_assoc.
Qed.

Lemma transfer_prints_running_totals_witness :
  exists cs,
    Forall (fun c => 0 < c) cs /\
    fold_right Z.add 0 cs = Z.of_nat (List.length (list_byte_of_string "hello")) /\
    snd (drain (mkProgressReader (list_byte_of_string "hello" : Buffer) (uploadReporter 5))
           [4; 4; 4; 4; 4; 4]%nat (0, []))
      = (0 + Z.of_nat (List.length (list_byte_of_string "hello")),
         [] ++ map (progressLine 5) (runningTotals 0 cs) ++ [completeLine]).
Proof.
  apply transfer_prints_running_totals.
  - repeat constructor.
  - vm_compute. lia.
  - lia.
  - vm_compute. reflexivity.
Defined.

(** ** The uploader, run by run *)

Lemma uploadReporter_stdout total r s :
  Forall (fun ev => isStdout ev = true) (snd s) ->
  Forall (fun ev => isStdout ev = true) (snd (uploadReporter total r s)).
Proof.
  destruct s as [dong out]. unfold uploadReporter. cbn [snd]. intros Hout.
  destruct (r >? 0); cbn [snd]; apply Forall_app; split; auto; repeat constructor.
Qed.

Lemma drain_uploadReporter_stdout {R : Type} `{RD : Reader R} total sizes :
  forall (r : R) s,
    Forall (fun ev => isStdout ev = true) (snd s) ->
    Forall (fun ev => isStdout ev = true)
      (snd (snd (drain (mkProgressReader r (uploadReporter total)) sizes s))).
Proof.
  induction sizes as [|len rest IH]; intros r s Hs.
  - exact Hs.
  - rewrite drain_cons. cbn [pr_Reader Reporter]. cbv zeta.
    destruct (snd (fst (Read r (repeat x00 len)))); cbn [snd].
    + now apply uploadReporter_stdout.
    + apply IH. now apply uploadReporter_stdout.
Qed.

Lemma uploadFileWithForm_run H filePath uploadURL token t :
  FormRun filePath uploadURL token
    (fst (uploadFileWithForm H filePath uploadURL token t))
    (snd (uploadFileWithForm H filePath uploadURL token t)).
Proof.
  unfold uploadFileWithForm, clientDo, bind, osOpen, fileStat, fileClose, Println,
    call, emit, ask, ret.
  destruct (osOpen_res H t filePath) as [e|]; cbn [fst snd app]; [constructor|].
  destruct (fileStat_res H _ filePath) as [stat [e|]]; cbn [fst snd app]; [constructor|].
  destruct (CreateFormFile_res H _ "file" (fi_Name stat)) as [e|]; cbn [fst snd app];
    [constructor|].
  destruct (Copy_res H _) as [e|]; cbn [fst snd app]; [constructor|].
  destruct (WriterClose_res H _) as [e|]; cbn [fst snd app]; [constructor|].
  destruct (NewRequest_res H _ "POST" uploadURL) as [e|]; cbn [fst snd app].
  { apply (form_no_request _ _ _ (fi_Name stat)). }
  match goal with
  | |- context [drain ?pr ?sizes ?s] =>
      pose proof (drain_uploadReporter_stdout
                    (Z.of_nat (List.length (formBody H
                       (((((t ++ [EvOsOpen filePath None]) ++ [EvFileStat filePath None]) ++
                          [EvCreateFormFile "file" (fi_Name stat) None]) ++ [EvCopy None]) ++
                        [EvWriterClose None]))))
                    sizes (pr_Reader pr) s (Forall_nil _)) as Hprinted;
      cbn [pr_Reader] in Hprinted;
      destruct (drain pr sizes s) as [[ress pr'] [dong printed]]
  end.
  cbn [fst snd] in Hprinted.
  destruct (Do_res H _) as [response [e|]]; cbn [fst snd app].
  { rewrite <- ?app_assoc. cbn [app].
    apply (form_not_sent _ _ _ (fi_Name stat) printed); exact Hprinted. }
  destruct (ReadAll_res H _) as [body [e|]]; cbn [fst snd app].
  - rewrite <- ?app_assoc. cbn [app].
    apply (form_no_reply _ _ _ (fi_Name stat) printed); exact Hprinted.
  - rewrite <- ?app_assoc. cbn [app].
    apply (form_sent _ _ _ (fi_Name stat) printed); exact Hprinted.
Qed.

Lemma uploadFile_run H carFilePath carCID fileName fileType t :
  UploadRun H carFilePath carCID fileName fileType
    (fst (uploadFile H carFilePath carCID fileName fileType t))
    (snd (uploadFile H carFilePath carCID fileName fileType t)).
Proof.
  unfold uploadFile, bind, osOpen, fileStat, fileClose, CreateUserAsset, Print,
    call, emit, ret.
  destruct (osOpen_res H t carFilePath) as [e|]; cbn [fst snd app]; [constructor|].
  destruct (fileStat_res H _ carFilePath) as [stat [e|]]; cbn [fst snd app]; [constructor|].
  destruct (CreateUserAsset_res H _ _) as [rsp [e|]]; cbn [fst snd app]; [constructor|].
  destruct (AlreadyExists rsp) eqn:Hexists; cbn [fst snd app]; [now constructor|].
  match goal with
  | |- context [uploadFileWithForm H carFilePath ?u ?k ?t'] =>
      pose proof (uploadFileWithForm_run H carFilePath u k t') as Hform;
      destruct (uploadFileWithForm H carFilePath u k t') as [res evs]
  end.
  cbn [fst snd] in Hform.
  destruct res as [e|]; cbn [fst snd app].
  - apply (upload_transfer H _ _ _ _ (fi_Size stat) rsp (Some e) evs Hexists Hform).
  - apply (upload_transfer H _ _ _ _ (fi_Size stat) rsp None evs Hexists Hform).
Qed.

Lemma countIf_app f t1 t2 : countIf f (t1 ++ t2) = (countIf f t1 + countIf f t2)%nat.
Proof. unfold countIf. now rewrite filter_app, length_app. Qed.

Lemma countIf_stdout f printed :
  (forall line, f (EvStdout line) = false) ->
  Forall (fun ev => isStdout ev = true) printed -> countIf f printed = 0%nat.
Proof.
  intros Hf. induction 1 as [|ev printed Hev _ IH]; [reflexivity|].
  destruct ev; try discriminate. unfold countIf in *. simpl. now rewrite Hf.
Qed.

Lemma FormRun_balanced filePath uploadURL token res evs :
  FormRun filePath uploadURL token res evs ->
  countIf isOpenedFile evs = countIf isFileClose evs /\
  countIf isDoOk evs = countIf isBodyClose evs.
Proof.
  intros Hrun.
  destruct Hrun; try (split; reflexivity);
    unfold formBuilt; rewrite !countIf_app;
    rewrite !(countIf_stdout _ printed) by (assumption || reflexivity);
    split; reflexivity.
Qed.

(** Every file [uploadFile] opens it closes, once, on every path through
    it and through [uploadFileWithForm]; and the response body is closed
    exactly when a response was received. *)
Theorem uploadFile_closes_what_it_opens H carFilePath carCID fileName fileType t :
  let evs := snd (uploadFile H carFilePath carCID fileName fileType t) in
  countIf isOpenedFile evs = countIf isFileClose evs /\
  countIf isDoOk evs = countIf isBodyClose evs.
Proof.
  cbv zeta.
  pose proof (uploadFile_run H carFilePath carCID fileName fileType t) as Hrun.
  destruct Hrun as [e | e | size rsp e | size rsp Hex | size rsp res evs Hex Hform];
    try (split; reflexivity).
  destruct (FormRun_balanced _ _ _ _ _ Hform) as [Hfiles Hbody].
  rewrite !countIf_app, Hfiles, Hbody. unfold countIf. simpl. split; lia.
Qed.

Lemma In_printed ev printed :
  Forall (fun ev => isStdout ev = true) printed -> In ev printed -> isStdout ev = true.
Proof. intros Hp Hin. rewrite Forall_forall in Hp. auto. Qed.

Ltac split_In :=
  repeat match goal with
         | Hx : _ \/ _ |- _ => destruct Hx
         | Hx : False |- _ => destruct Hx
         | Hx : In _ (_ ++ _) |- _ => rewrite in_app_iff in Hx
         | Hx : In _ (_ :: _) |- _ => cbn [In] in Hx
         | Hx : In _ [] |- _ => destruct Hx
         | Hx : In _ ?printed, Hp : Forall _ ?printed |- _ =>
             apply (In_printed _ _ Hp) in Hx; discriminate Hx
         end.

Lemma FormRun_request filePath uploadURL token res evs contentType authorization err :
  FormRun filePath uploadURL token res evs ->
  In (EvDo contentType authorization err) evs ->
  authorization = ("Bearer " ++ token)%string /\
  In (EvNewRequest "POST" uploadURL None) evs.
Proof.
  intros Hrun Hin.
  destruct Hrun; unfold formBuilt in *; split_In; try discriminate;
    match goal with
    | Hx : _ = EvDo _ _ _ |- _ => inversion Hx; subst; clear Hx
    end;
    (split; [reflexivity|]);
    repeat (rewrite in_app_iff; cbn [In]); auto 10.
Qed.

Lemma FormRun_success filePath uploadURL token evs :
  FormRun filePath uploadURL token None evs ->
  exists contentType,
    In (EvDo contentType ("Bearer " ++ token) None) evs /\ In (EvReadAll None) evs.
Proof.
  intros Hrun. inversion Hrun; subst.
  exists contentType. split; repeat (rewrite in_app_iff; cbn [In]); auto 12.
Qed.

(** [uploadFile] never sends a request the scheduler did not ask for: a
    request in its trace follows a reply of [CreateUserAsset] without
    error that does not report the asset as existing, goes by POST to the
    [UploadURL] of that reply, and bears "Bearer " and the reply's token. *)
Theorem uploadFile_sends_only_on_reply H carFilePath carCID fileName fileType t
    contentType authorization err :
  In (EvDo contentType authorization err)
     (snd (uploadFile H carFilePath carCID fileName fileType t)) ->
  exists size rsp,
    In (EvCreateUserAsset (mkAssetProperty carCID fileName size fileType) rsp None)
       (snd (uploadFile H carFilePath carCID fileName fileType t)) /\
    AlreadyExists rsp = false /\
    authorization = ("Bearer " ++ Token rsp)%string /\
    In (EvNewRequest "POST" (UploadURL rsp) None)
       (snd (uploadFile H carFilePath carCID fileName fileType t)).
Proof.
  pose proof (uploadFile_run H carFilePath carCID fileName fileType t) as Hrun.
  destruct Hrun as [e | e | size rsp e | size rsp Hex | size rsp res evs Hex Hform];
    intros Hin; split_In; try discriminate.
  match goal with
  | Hx : In _ evs |- _ =>
      destruct (FormRun_request _ _ _ _ _ _ _ _ Hform Hx) as [Hauth Hreq]
  end.
  exists size, rsp. repeat split; auto.
  - cbn [app In]. auto.
  - repeat (rewrite in_app_iff; cbn [In]). auto.
Qed.

Lemma uploadFile_sends_only_on_reply_witness :
  exists size rsp,
    In (EvCreateUserAsset (mkAssetProperty "bafy" "a" size "file") rsp None)
       (snd (uploadFile Demo.okHost "/tmp/a.car" "bafy" "a" "file" [])) /\
    AlreadyExists rsp = false /\
    "Bearer token" = ("Bearer " ++ Token rsp)%string /\
    In (EvNewRequest "POST" (UploadURL rsp) None)
       (snd (uploadFile Demo.okHost "/tmp/a.car" "bafy" "a" "file" [])).
Proof.
  apply (uploadFile_sends_only_on_reply Demo.okHost "/tmp/a.car" "bafy" "a" "file" []
           "multipart/form-data; boundary=xyz" "Bearer token" None).
  vm_compute. auto 20.
Defined.

(** A nil error of [uploadFile] stands for a completed transfer: the
    scheduler answered without error that the asset is new, the request
    was sent with the reply's token and answered without error, and the
    response body was read to its end. *)
Theorem uploadFile_nil_means_transferred H carFilePath carCID fileName fileType t :
  fst (uploadFile H carFilePath carCID fileName fileType t) = None ->
  exists size rsp contentType,
    In (EvCreateUserAsset (mkAssetProperty carCID fileName size fileType) rsp None)
       (snd (uploadFile H carFilePath carCID fileName fileType t)) /\
    AlreadyExists rsp = false /\
    In (EvDo contentType ("Bearer " ++ Token rsp) None)
       (snd (uploadFile H carFilePath carCID fileName fileType t)) /\
    In (EvReadAll None) (snd (uploadFile H carFilePath carCID fileName fileType t)).
Proof.
  pose proof (uploadFile_run H carFilePath carCID fileName fileType t) as Hrun.
  destruct Hrun as [e | e | size rsp e | size rsp Hex | size rsp res evs Hex Hform];
    try discriminate.
  destruct res as [e|]; [discriminate|]. intros _.
  destruct (FormRun_success _ _ _ _ Hform) as (contentType & Hdo & Hread).
  exists size, rsp, contentType. repeat split; auto.
  - cbn [app In]. auto.
  - repeat (rewrite in_app_iff; cbn [In]). auto.
  - repeat (rewrite in_app_iff; cbn [In]). auto.
Qed.

Lemma uploadFile_nil_means_transferred_witness :
  exists size rsp contentType,
    In (EvCreateUserAsset (mkAssetProperty "bafy" "a" size "file") rsp None)
       (snd (uploadFile Demo.okHost "/tmp/a.car" "bafy" "a" "file" [])) /\
    AlreadyExists rsp = false /\
    In (EvDo contentType ("Bearer " ++ Token rsp) None)
       (snd (uploadFile Demo.okHost "/tmp/a.car" "bafy" "a" "file" [])) /\
    In (EvReadAll None) (snd (uploadFile Demo.okHost "/tmp/a.car" "bafy" "a" "file" [])).
Proof.
  apply uploadFile_nil_means_transferred. reflexivity.
Defined.

Lemma string_app_nil_r (s : string) : (s ++ "")%string = s.
Proof. induction s as [|c s IH]; simpl; [reflexivity | now rewrite IH]. Qed.

Lemma printed_not_failed printed :
  Forall (fun ev => isStdout ev = true) printed ->
  Forall (fun ev => failed ev = false) printed.
Proof.
  intros Hp. eapply Forall_impl; [|exact Hp].
  intros ev Hev. destruct ev; try discriminate; reflexivity.
Qed.

(** [uploadFile] swallows no failure: when it returns nil, no call it or
    [uploadFileWithForm] made was answered with an error. *)
Theorem uploadFile_reports_every_failure H carFilePath carCID fileName fileType t :
  fst (uploadFile H carFilePath carCID fileName fileType t) = None ->
  Forall (fun ev => failed ev = false)
    (snd (uploadFile H carFilePath carCID fileName fileType t)).
Proof.
  pose proof (uploadFile_run H carFilePath carCID fileName fileType t) as Hrun.
  destruct Hrun as [e | e | size rsp e | size rsp Hex | size rsp res evs Hex Hform];
    try discriminate.
  destruct res as [e|]; [discriminate|]. intros _.
  inversion Hform; subst. unfold formBuilt.
  repeat (apply Forall_app; split); repeat constructor.
  now apply printed_not_failed.
Qed.

Lemma uploadFile_reports_every_failure_witness :
  Forall (fun ev => failed ev = false)
    (snd (uploadFile Demo.okHost "/tmp/a.car" "bafy" "a" "file" [])).
Proof. apply uploadFile_reports_every_failure. reflexivity. Defined.

(** A failure of the HTTP request reaches the caller as text only.  When
    [client.Do] (or [http.NewRequest]) fails with [e], [uploadFile]
    returns an error that reads "uploadFileWithForm error do error <e>"
    (or "... new request error <e>") and wraps an error made with [%s],
    which wraps nothing: [e] itself cannot be unwrapped from it. *)
Theorem uploadFile_flattens_request_errors H carFilePath carCID fileName fileType t
    contentType authorization url e :
  In (EvDo contentType authorization (Some e))
     (snd (uploadFile H carFilePath carCID fileName fileType t)) \/
  In (EvNewRequest "POST" url (Some e))
     (snd (uploadFile H carFilePath carCID fileName fileType t)) ->
  exists step err inner,
    (step = "do error " \/ step = "new request error ") /\
    fst (uploadFile H carFilePath carCID fileName fileType t) = Some err /\
    Error err = ("uploadFileWithForm error " ++ step ++ Error e)%string /\
    Unwrap err = Some inner /\
    Unwrap inner = None.
Proof.
  pose proof (uploadFile_run H carFilePath carCID fileName fileType t) as Hrun.
  destruct Hrun as [e0 | e0 | size rsp e0 | size rsp Hex | size rsp res evs Hex Hform];
    intros [Hin | Hin]; split_In; try discriminate;
    destruct Hform; unfold formBuilt in *; split_In; try discriminate;
    match goal with
    | Hx : _ = EvDo _ _ _ |- _ => inversion Hx; subst; clear Hx
    | Hx : _ = EvNewRequest _ _ _ |- _ => inversion Hx; subst; clear Hx
    end.
  - exists "do error ", (Errorf_w "uploadFileWithForm error "
                             (Errorf_s "do error " (Error e) "")),
      (Errorf_s "do error " (Error e) "").
    repeat split; auto. unfold Errorf_w, Errorf_s, Error. now rewrite string_app_nil_r.
  - exists "new request error ", (Errorf_w "uploadFileWithForm error "
                                       (Errorf_s "new request error " (Error e) "")),
      (Errorf_s "new request error " (Error e) "").
    repeat split; auto. unfold Errorf_w, Errorf_s, Error. now rewrite string_app_nil_r.
Qed.

Lemma uploadFile_flattens_request_errors_witness :
  exists step err inner,
    (step = "do error " \/ step = "new request error ") /\
    fst (uploadFile DemoFail.noTransport "/tmp/a.car" "bafy" "a" "file" []) = Some err /\
    Error err = ("uploadFileWithForm error " ++ step ++ Error DemoFail.connectionRefused)%string /\
    Unwrap err = Some inner /\
    Unwrap inner = None.
Proof.
  apply (uploadFile_flattens_request_errors DemoFail.noTransport "/tmp/a.car" "bafy" "a" "file" []
           "multipart/form-data; boundary=xyz" "Bearer token" "").
  left. vm_compute. auto 20.
Defined.

(** ** More on [writeFiles] and the link system *)

Lemma writeFiles_loop_prefix E H pre :
  forall rest acc t entries evs1,
    Collected E H pre t entries evs1 ->
    writeFiles_loop E H false (pre ++ rest) acc t =
    (fst (writeFiles_loop E H false rest (acc ++ entries) (t ++ evs1)),
     evs1 ++ snd (writeFiles_loop E H false rest (acc ++ entries) (t ++ evs1))).
Proof.
  induction pre as [|p pre IH]; intros rest acc t entries evs1 Hc; inversion Hc; subst.
  - cbn [app]. rewrite !app_nil_r.
    destruct (writeFiles_loop E H false rest acc t). reflexivity.
  - cbn [app writeFiles_loop]. unfold bind.
    match goal with Hb : runBuild _ _ _ _ = _ |- _ => rewrite Hb end.
    match goal with He : entryOf _ _ _ _ = _ |- _ => unfold entryOf in He; rewrite He end.
    match goal with Hr : Collected _ _ pre _ _ _ |- _ =>
      rewrite (IH rest (acc ++ [entry]) _ _ _ Hr) end.
    rewrite <- !app_assoc. reflexivity.
Qed.

(** Without no-wrap, [writeFiles] stops at the first path that fails:
    when the paths before [p] were built and the builder returns an error
    for [p], or the directory entry for [p] cannot be made, [writeFiles]
    returns [cid.Undef] with that error; the paths after [p] are not
    built, and no directory node is. *)
Theorem writeFiles_stops_at_first_failure E H pre p post t entries evs1 l size evs2 e :
  Collected E H pre t entries evs1 ->
  runBuild E H (BuildUnixFSRecursive E p) (t ++ evs1) = ((l, size, Some e), evs2) \/
  (runBuild E H (BuildUnixFSRecursive E p) (t ++ evs1) = ((l, size, None), evs2) /\
   snd (entryOf E p l size) = Some e) ->
  writeFiles E H false (pre ++ p :: post) t = ((Undef, Some e), evs1 ++ evs2).
Proof.
  intros Hc Hfail. unfold writeFiles, bind.
  rewrite (writeFiles_loop_prefix E H pre (p :: post) [] t entries evs1 Hc).
  cbn [writeFiles_loop app]. unfold bind.
  destruct Hfail as [Hb | [Hb He]]; rewrite Hb.
  - cbn. now rewrite !app_nil_r.
  - unfold entryOf in He.
    destruct (BuildUnixFSDirectoryEntry E (Base p) (int64_of_uint64 size) l)
      as [entry err]. cbn in He. subst err. cbn. now rewrite !app_nil_r.
Qed.

Lemma writeFiles_stops_at_first_failure_witness :
  writeFiles DemoFail.extern Demo.okHost false (["a"] ++ "missing" :: ["b"]) []
    = ((Undef, Some (errorString "no such file or directory")),
       [EvPut (mkBlock (list_byte_of_string "a") (Demo.cidOf (list_byte_of_string "a"))) None]
         ++ []).
Proof.
  assert (Hc : Collected DemoFail.extern Demo.okHost ["a"] []
                 [mkPBLink "a" 1 (CidLink (Demo.cidOf (list_byte_of_string "a")))]
                 ([EvPut (mkBlock (list_byte_of_string "a")
                                  (Demo.cidOf (list_byte_of_string "a"))) None] ++ [])).
  { eapply (collected_cons _ _ "a" [] []); [reflexivity | reflexivity | apply collected_nil]. }
  apply (writeFiles_stops_at_first_failure DemoFail.extern Demo.okHost
           ["a"] "missing" ["b"] [] _ _ Demo.nilLink 0 [] _ Hc).
  left. reflexivity.
Defined.

(** The store-backed link system of [writeFiles] and the dry one of
    [calculateCid] agree on a builder that only stores well-formed blocks
    under cid links: the builder returns the same value on both, whatever
    the store answers to [Put]; and [writeFiles] hands the store exactly
    the builder's blocks, each once, in the builder's order, with no other
    call on the store. *)
Theorem clean_build_agrees_with_dry_run E H {A : Type} (b : Build A) :
  CommitsCleanly E b ->
  forall t,
    fst (runBuild E H b t) = runBuildDry b /\
    putBlocks (snd (runBuild E H b t)) = storedBlocks E b /\
    List.length (snd (runBuild E H b t)) = List.length (storedBlocks E b).
Proof.
  induction 1 as [a | data c k Hblk Hclean IH]; intros t.
  - repeat split.
  - cbn [runBuild runBuildDry storedBlocks]. unfold bind, lsStore. cbn.
    unfold commit.
    destruct (NewBlockWithCid E data c) as [blk err]. cbn in Hblk. subst err.
    unfold bind, Put, call, ret. cbn.
    specialize (IH (t ++ [EvPut blk (Put_res H t blk)])).
    destruct (runBuild E H (k None) (t ++ [EvPut blk (Put_res H t blk)])) as [a evs].
    cbn in *. destruct IH as (Hres & Hput & Hlen).
    repeat split; congruence.
Qed.

Lemma clean_build_agrees_with_dry_run_witness :
  fst (runBuild Demo.extern (Demo.host (Some Demo.diskFull) None None false [] [])
         (Demo.buildPath "a") [])
    = runBuildDry (Demo.buildPath "a") /\
  putBlocks (snd (runBuild Demo.extern (Demo.host (Some Demo.diskFull) None None false [] [])
                    (Demo.buildPath "a") []))
    = storedBlocks Demo.extern (Demo.buildPath "a") /\
  List.length (snd (runBuild Demo.extern
                      (Demo.host (Some Demo.diskFull) None None false [] [])
                      (Demo.buildPath "a") []))
    = List.length (storedBlocks Demo.extern (Demo.buildPath "a")).
Proof.
  apply clean_build_agrees_with_dry_run.
  apply clean_BStore; [reflexivity | apply clean_Done].
Defined.

(** ** The root [createCar] patches in *)

(** The root patched into the header is the CID the builder returned for
    the input: whenever [createCar] calls [ReplaceRootsInFile], it does so
    on the output file with that one CID, and it returns the string of
    that CID together with exactly what [ReplaceRootsInFile] answered (so
    a failed patch yields a root string and a non-nil error). *)
Theorem createCar_returns_the_patched_root E H input output t path roots err :
  In (EvReplaceRootsInFile path roots err) (snd (createCar E H input output t)) ->
  exists c size,
    fst (runBuild E H (BuildUnixFSRecursive E input)
           (t ++ [EvOpenReadWrite output [proxyRootOf E] None])) = (CidLink c, size, None) /\
    path = output /\ roots = [c] /\
    fst (createCar E H input output t) = (CidString E c, err).
Proof.
  assert (Hp : proxyRootOf E =
               NewCidV1 DagPb (fst (Encode E (Sum (fst (GetHasher E SHA2_256)) []) SHA2_256)))
    by reflexivity.
  assert (Hno : forall body,
             Forall (fun ev => isBlockIO ev = true) body ->
             ~ In (EvReplaceRootsInFile path roots err) body).
  { intros body Hb Hi. rewrite Forall_forall in Hb. apply Hb in Hi. discriminate. }
  unfold createCar.
  destruct (GetHasher E SHA2_256) as [hasher [e|]]; simpl in *; [tauto|].
  destruct (Encode E (Sum hasher []) SHA2_256) as [hash [e|]]; simpl in *; [tauto|].
  rewrite <- Hp. clear Hp.
  unfold bind, OpenReadWrite, Finalize, ReplaceRootsInFile, call, ret.
  destruct (OpenReadWrite_res H t output [proxyRootOf E]) as [e|]; simpl.
  { intros [Hx | []]. discriminate. }
  rewrite writeFiles_noWrap_single.
  pose proof (runBuild_blockIO E H (BuildUnixFSRecursive E input)
                (t ++ [EvOpenReadWrite output [proxyRootOf E] None])) as Hbody.
  destruct (runBuild E H (BuildUnixFSRecursive E input) _) as [[[l size] berr] body].
  cbn [fst snd] in *. specialize (Hno body Hbody).
  unfold bareResult.
  destruct berr as [e|]; cbn [fst snd app].
  { rewrite ?app_nil_r. intros [Hx | Hin]; [discriminate | contradiction]. }
  destruct l as [c|repr]; cbn [fst snd app].
  2:{ rewrite ?app_nil_r. intros [Hx | Hin]; [discriminate | contradiction]. }
  destruct (Finalize_res H _) as [e|]; cbn [fst snd app].
  { intros [Hx | Hin]; [discriminate|].
    apply in_app_or in Hin. destruct Hin as [Hin | [Hx | []]];
      [contradiction | discriminate]. }
  intros [Hx | Hin]; [discriminate|].
  apply in_app_or in Hin. destruct Hin as [Hin | [Hx | [Hx | []]]];
    [contradiction | discriminate |].
  inversion Hx; subst. exists c, size. auto.
Qed.

Lemma createCar_returns_the_patched_root_witness :
  exists c size,
    fst (runBuild Demo.extern
           (Demo.host None None (Some Demo.diskFull) false [] [])
           (BuildUnixFSRecursive Demo.extern "a")
           ([] ++ [EvOpenReadWrite "out.car" [proxyRootOf Demo.extern] None]))
      = (CidLink c, size, None) /\
    "out.car" = "out.car" /\
    [Demo.cidOf (list_byte_of_string "a")] = [c] /\
    fst (createCar Demo.extern (Demo.host None None (Some Demo.diskFull) false [] [])
           "a" "out.car" [])
      = (CidString Demo.extern c, Some Demo.diskFull).
Proof.
  apply (createCar_returns_the_patched_root Demo.extern
           (Demo.host None None (Some Demo.diskFull) false [] []) "a" "out.car" []).
  vm_compute. auto 10.
Defined.

(** ** [path.Base], which names the directory entries and the temporary file *)

Lemma afterLastSlash_no_slash s :
  forall acc,
    (hasSlash s = false -> hasSlash acc = false) ->
    hasSlash (afterLastSlash s acc) = false.
Proof.
  induction s as [|c s IH]; intros acc Hacc; simpl.
  - now apply Hacc.
  - destruct (Ascii.eqb c slash) eqn:Hc.
    + apply IH. auto.
    + apply IH. intros Hs. apply Hacc. simpl. now rewrite Hc, Hs.
Qed.

Lemma stripTrailingSlashes_no_slash s :
  hasSlash s = false -> stripTrailingSlashes s = s.
Proof.
  induction s as [|c s IH]; simpl; [reflexivity|].
  intros Hs. apply orb_false_iff in Hs. destruct Hs as [Hc Hs].
  rewrite (IH Hs), Hc. destruct s; reflexivity.
Qed.

Lemma afterLastSlash_keeps s :
  forall acc, hasSlash s = false -> afterLastSlash s acc = acc.
Proof.
  induction s as [|c s IH]; intros acc; simpl; [reflexivity|].
  intros Hs. apply orb_false_iff in Hs. destruct Hs as [Hc Hs].
  rewrite Hc. now apply IH.
Qed.

Lemma Base_no_slash q : q <> "" -> hasSlash q = false -> Base q = q.
Proof.
  intros Hq Hs. unfold Base. destruct q as [|c q]; [congruence|].
  rewrite (stripTrailingSlashes_no_slash _ Hs), (afterLastSlash_keeps _ _ Hs).
  reflexivity.
Qed.

(** [Base] never returns the empty string; its result holds a slash only
    when it is "/" itself; and applying it again changes nothing.  So a
    directory entry made by [writeFiles] has a non-empty name that is a
    single path element. *)
Theorem Base_is_one_element p :
  Base p <> "" /\
  (Base p = "/" \/ hasSlash (Base p) = false) /\
  Base (Base p) = Base p.
Proof.
  assert (Hcases : Base p = "." \/ Base p = "/" \/
                   (Base p <> "" /\ hasSlash (Base p) = false)).
  { unfold Base. destruct p as [|c p]; [now left|]. right.
    set (p1 := stripTrailingSlashes (String c p)).
    pose proof (afterLastSlash_no_slash p1 p1 (fun Hs => Hs)) as Hns.
    destruct (afterLastSlash p1 p1) as [|c' p2] eqn:Hp2; [now left|].
    right. split; [discriminate | exact Hns]. }
  destruct Hcases as [Hb | [Hb | [Hne Hns]]].
  - rewrite Hb. repeat split; [discriminate | now right].
  - rewrite Hb. repeat split; [discriminate | now left].
  - repeat split; [exact Hne | now right | now apply Base_no_slash].
Qed.

(** ** The command *)

Lemma newSchedulerAPI_run SH locatorURL apiKey st :
  SetupRun locatorURL apiKey (fst (newSchedulerAPI SH locatorURL apiKey st))
                             (snd (newSchedulerAPI SH locatorURL apiKey st)).
Proof.
  unfold newSchedulerAPI, bindS, callS, retS.
  destruct (ListenPacket_res SH st) as [e|]; cbn [fst snd app]; [constructor|].
  destruct (NewHTTP3Client_res SH _) as [e|]; cbn [fst snd app]; [constructor|].
  destruct (NewLocator_res SH _ locatorURL) as [e|]; cbn [fst snd app]; [constructor|].
  destruct (GetSchedulerWithAPIKey_res SH _ apiKey) as [url [e|]]; cbn [fst snd app];
    [constructor|].
  destruct (NewScheduler_res SH _ url _) as [e|]; cbn [fst snd app]; constructor.
Qed.

Lemma execUpload_run E SH apiKey locatorURL filePath st :
  ExecRun E apiKey locatorURL filePath (Join SH (TempDir SH) (Base filePath))
    (fst (execUpload E SH apiKey locatorURL filePath st))
    (snd (execUpload E SH apiKey locatorURL filePath st)).
Proof.
  destruct (execUpload E SH apiKey locatorURL filePath st) as [res evs] eqn:Hrun.
  cbn [fst snd].
  unfold execUpload in Hrun. unfold bindS at 1 in Hrun.
  pose proof (newSchedulerAPI_run SH locatorURL apiKey st) as Hsetup.
  destruct (newSchedulerAPI SH locatorURL apiKey st) as [[close err] setupEvs].
  cbn [fst snd] in Hsetup.
  destruct err as [e|].
  { unfold retS in Hrun. inversion Hrun; subst. rewrite app_nil_r.
    econstructor; eauto. }
  inversion Hsetup; subst. clear Hsetup.
  set (tempFile := Join SH (TempDir SH) (Base filePath)) in *.
  unfold deferred, closeScheduler in Hrun.
  unfold bindS, osStat, osRemove, liftCore, callS, emitS, retS in Hrun.
  cbn [fst snd] in Hrun.
  destruct (osStat_res SH _ filePath) as [isDir [e|]]; cbn [fst snd app] in Hrun.
  { inversion Hrun; subst. apply exec_no_input. }
  assert (Hty : (if isDir then "folder" else "file") = "file" \/
                (if isDir then "folder" else "file") = "folder")
    by (destruct isDir; auto).
  destruct (osStat_res SH _ tempFile) as [d [e0|]]; cbn [fst snd app] in Hrun.
  - match type of Hrun with
    | context [createCar E ?h filePath tempFile ?t] =>
        pose proof (createCar_run E h filePath tempFile t) as Hcar;
        destruct (createCar E h filePath tempFile t) as [[root cerr] carEvs]
    end.
    cbn [fst snd] in Hcar. cbn [fst snd app] in Hrun.
    destruct cerr as [e|]; cbn [fst snd app] in Hrun.
    { inversion Hrun; subst.
      apply (exec_no_car E _ _ _ _ url [EvOsStat tempFile (Some e0)] root e carEvs);
        [constructor | exact Hcar]. }
    match type of Hrun with
    | context [uploadFile ?h tempFile root ?n ?ty ?t] =>
        pose proof (uploadFile_run h tempFile root n ty t) as Hup;
        pose proof (exec_no_upload E apiKey locatorURL filePath tempFile url
                      [EvOsStat tempFile (Some e0)] root carEvs h ty) as Hno;
        pose proof (exec_uploaded E apiKey locatorURL filePath tempFile url
                      [EvOsStat tempFile (Some e0)] root carEvs h ty) as Hyes;
        destruct (uploadFile h tempFile root n ty t) as [uerr upEvs]
    end.
    cbn [fst snd] in Hup. cbn [fst snd app] in Hrun.
    destruct uerr as [e|]; cbn [fst snd app] in Hrun.
    { inversion Hrun; subst. rewrite ?app_nil_r.
      apply Hno; [constructor | exact Hcar | exact Hty | exact Hup]. }
    destruct (osRemove_res SH _ tempFile) as [e|]; cbn [fst snd app] in Hrun;
      inversion Hrun; subst; rewrite ?app_nil_r.
    + exact (Hyes upEvs (Some e) (stale_missing _ _) Hcar Hty Hup).
    + exact (Hyes upEvs None (stale_missing _ _) Hcar Hty Hup).
  - match type of Hrun with
    | _ => idtac end.
    remember (osRemove_res SH (((st ++ setUp locatorURL apiKey url) ++
                [EvOsStat filePath None]) ++ [EvOsStat tempFile None]) tempFile) as r0 eqn:Hr0.
    clear Hr0.
    match type of Hrun with
    | context [createCar E ?h filePath tempFile ?t] =>
        pose proof (createCar_run E h filePath tempFile t) as Hcar;
        destruct (createCar E h filePath tempFile t) as [[root cerr] carEvs]
    end.
    cbn [fst snd] in Hcar. cbn [fst snd app] in Hrun.
    destruct cerr as [e|]; cbn [fst snd app] in Hrun.
    { inversion Hrun; subst.
      apply (exec_no_car E _ _ _ _ url [EvOsStat tempFile None; EvOsRemove tempFile r0] root e carEvs);
        [constructor | exact Hcar]. }
    match type of Hrun with
    | context [uploadFile ?h tempFile root ?n ?ty ?t] =>
        pose proof (uploadFile_run h tempFile root n ty t) as Hup;
        pose proof (exec_no_upload E apiKey locatorURL filePath tempFile url
                      [EvOsStat tempFile None; EvOsRemove tempFile r0] root carEvs h ty) as Hno;
        pose proof (exec_uploaded E apiKey locatorURL filePath tempFile url
                      [EvOsStat tempFile None; EvOsRemove tempFile r0] root carEvs h ty) as Hyes;
        destruct (uploadFile h tempFile root n ty t) as [uerr upEvs]
    end.
    cbn [fst snd] in Hup. cbn [fst snd app] in Hrun.
    destruct uerr as [e|]; cbn [fst snd app] in Hrun.
    { inversion Hrun; subst. rewrite ?app_nil_r.
      apply Hno; [constructor | exact Hcar | exact Hty | exact Hup]. }
    destruct (osRemove_res SH _ tempFile) as [e|]; cbn [fst snd app] in Hrun;
      inversion Hrun; subst; rewrite ?app_nil_r.
    + exact (Hyes upEvs (Some e) (stale_removed _ _) Hcar Hty Hup).
    + exact (Hyes upEvs None (stale_removed _ _) Hcar Hty Hup).
Qed.

Lemma SetupRun_failed locatorURL apiKey close e evs :
  SetupRun locatorURL apiKey (close, Some e) evs ->
  close = None /\
  (exists step cause,
      In step ["ListenPacket"; "NewHTTP3Client"; "NewLocator";
               "GetSchedulerWithAPIKey"; "NewScheduler"] /\
      e = Errorf_w (step ++ " ") cause) /\
  Forall (fun ev => isUdpClose ev = false) evs /\
  (forall url authorization, ~ In (EvNewScheduler url authorization None) evs).
Proof.
  intros Hrun. inversion Hrun; subst; (split; [reflexivity|]); (split; [|split]);
    try (repeat constructor; fail);
    try (intros u a Hin; cbn [In] in Hin;
         repeat match goal with
                | Hx : _ \/ _ |- _ => destruct Hx
                | Hx : False |- _ => destruct Hx
                | Hx : _ = EvNewScheduler _ _ _ |- _ => discriminate Hx
                end; fail).
  - exists "ListenPacket". eexists. split; [cbn; auto | reflexivity].
  - exists "NewHTTP3Client". eexists. split; [cbn; auto | reflexivity].
  - exists "NewLocator". eexists. split; [cbn; auto | reflexivity].
  - exists "GetSchedulerWithAPIKey". eexists. split; [cbn; auto | reflexivity].
  - exists "NewScheduler". eexists. split; [cbn; auto 6 | reflexivity].
Qed.



(** [execUpload] closes the scheduler client and the UDP socket, last of
    all, on every path on which [newSchedulerAPI] had succeeded; when the
    set-up fails it closes nothing, so a socket that [ListenPacket] had
    opened stays open. *)
Theorem execUpload_closes_after_setup E SH apiKey locatorURL filePath st :
  let evs := snd (execUpload E SH apiKey locatorURL filePath st) in
  (forall url authorization,
      In (EvNewScheduler url authorization None) evs ->
      exists evs', evs = evs' ++ [EvApiClose; EvUdpClose]) /\
  ((forall url authorization, ~ In (EvNewScheduler url authorization None) evs) ->
   Forall (fun ev => isUdpClose ev = false) evs /\
   fst (execUpload E SH apiKey locatorURL filePath st) <> None).
Proof.
  cbv zeta.
  pose proof (execUpload_run E SH apiKey locatorURL filePath st) as Hrun.
  destruct (execUpload E SH apiKey locatorURL filePath st) as [res evs].
  cbn [fst snd] in *.
  assert (Hset : forall url rest,
             In (EvNewScheduler url ("Bearer " ++ apiKey) None)
                (setUp locatorURL apiKey url ++ rest)).
  { intros url rest. apply in_or_app. left. unfold setUp. cbn. auto 6. }
  destruct Hrun as [close e evs Hsetup | url e | url stale root e carEvs Hst Hcar
                   | url stale root carEvs H fileType e upEvs Hst Hcar Hty Hup
                   | url stale root carEvs H fileType upEvs r Hst Hcar Hty Hup].
  - destruct (SetupRun_failed _ _ _ _ _ Hsetup) as (_ & _ & Hudp & Hnone).
    split.
    + intros url auth Hin. exfalso. eapply Hnone; eauto.
    + intros _. split; [exact Hudp | discriminate].
  - split.
    + intros _ _ _. exists (setUp locatorURL apiKey url ++ [EvOsStat filePath (Some e)]).
      rewrite <- !app_assoc. reflexivity.
    + intros Hnone. exfalso. eapply Hnone. apply Hset.
  - split.
    + intros _ _ _.
      exists (setUp locatorURL apiKey url ++ [EvOsStat filePath None] ++ stale ++
              map Core carEvs).
      rewrite <- !app_assoc. reflexivity.
    + intros Hnone. exfalso. eapply Hnone. apply Hset.
  - split.
    + intros _ _ _.
      exists (setUp locatorURL apiKey url ++ [EvOsStat filePath None] ++ stale ++
              map Core carEvs ++ map Core upEvs).
      rewrite <- !app_assoc. reflexivity.
    + intros Hnone. exfalso. eapply Hnone. apply Hset.
  - split.
    + intros _ _ _.
      exists (setUp locatorURL apiKey url ++ [EvOsStat filePath None] ++ stale ++
              map Core carEvs ++ map Core upEvs ++
              [EvOsRemove (Join SH (TempDir SH) (Base filePath)) r]).
      rewrite <- !app_assoc. reflexivity.
    + intros Hnone. exfalso. eapply Hnone. apply Hset.
Qed.

(** A nil error of [execUpload] means that the temporary CAR was removed,
    without error, after the upload and before the connection was closed. *)
Theorem execUpload_nil_removes_the_car E SH apiKey locatorURL filePath st :
  fst (execUpload E SH apiKey locatorURL filePath st) = None ->
  exists evs',
    snd (execUpload E SH apiKey locatorURL filePath st)
      = evs' ++ [EvOsRemove (Join SH (TempDir SH) (Base filePath)) None;
                 EvApiClose; EvUdpClose].
Proof.
  pose proof (execUpload_run E SH apiKey locatorURL filePath st) as Hrun.
  destruct (execUpload E SH apiKey locatorURL filePath st) as [res evs].
  cbn [fst snd] in *. intros ->.
  inversion Hrun as [ | | | | url stale root carEvs H fileType upEvs r Hst Hcar Hty Hup]; subst.
  exists (setUp locatorURL apiKey url ++ [EvOsStat filePath None] ++ stale ++
          map Core carEvs ++ map Core upEvs).
  rewrite <- !app_assoc. reflexivity.
Qed.

Lemma execUpload_nil_removes_the_car_witness :
  exists evs',
    snd (execUpload Demo.extern (DemoSys.host None true Demo.okHost) "key" "https://locator" "dir/a" [])
      = evs' ++ [EvOsRemove (Join (DemoSys.host None true Demo.okHost)
                               (TempDir (DemoSys.host None true Demo.okHost)) (Base "dir/a"))
                   None;
                 EvApiClose; EvUdpClose].
Proof.
  apply execUpload_nil_removes_the_car. reflexivity.
Defined.

Lemma In_map_Core ev l : In (Core ev) (map Core l) -> In ev l.
Proof.
  intros Hin. apply in_map_iff in Hin. destruct Hin as (x & Hx & Hin).
  inversion Hx; subst. exact Hin.
Qed.

Lemma In_map_Core_isCore x l : In x (map Core l) -> isCore x = true.
Proof.
  intros Hin. apply in_map_iff in Hin. destruct Hin as (y & <- & _). reflexivity.
Qed.

Lemma CarRun_no_reply E output res evs prop rsp err :
  CarRun E output res evs -> ~ In (EvCreateUserAsset prop rsp err) evs.
Proof.
  assert (Hbody : forall body,
             Forall (fun ev => isBlockIO ev = true) body ->
             ~ In (EvCreateUserAsset prop rsp err) body).
  { intros body Hb Hi. rewrite Forall_forall in Hb. apply Hb in Hi. discriminate. }
  intros Hrun Hin.
  destruct Hrun; cbn [In] in Hin; rewrite ?in_app_iff in Hin; cbn [In] in Hin;
    repeat match goal with
           | Hx : _ \/ _ |- _ => destruct Hx
           | Hx : False |- _ => destruct Hx
           | Hx : _ = EvCreateUserAsset _ _ _ |- _ => discriminate Hx
           | Hx : In _ ?body, Hb : Forall _ ?body |- _ => exact (Hbody body Hb Hx)
           end.
Qed.

Lemma FormRun_no_reply filePath uploadURL token res evs prop rsp err :
  FormRun filePath uploadURL token res evs -> ~ In (EvCreateUserAsset prop rsp err) evs.
Proof.
  intros Hrun Hin.
  destruct Hrun; unfold formBuilt in *; split_In; discriminate.
Qed.

Lemma UploadRun_reply H p cid name ty res evs prop rsp err :
  UploadRun H p cid name ty res evs ->
  In (EvCreateUserAsset prop rsp err) evs ->
  (exists size, prop = mkAssetProperty cid name size ty) /\
  In (EvOsOpen p None) evs /\
  (err = None -> AlreadyExists rsp = true ->
   res = Some (Errorf_s "asset " cid " already exist") /\
   exists evs', evs = evs' ++ [EvFileClose p]).
Proof.
  intros Hrun Hin.
  destruct Hrun as [e | e | size rsp0 e | size rsp0 Hex | size rsp0 res evs Hex Hform];
    split_In; try discriminate;
    try (match goal with
         | Hx : In _ evs |- _ => exfalso; exact (FormRun_no_reply _ _ _ _ _ _ _ _ Hform Hx)
         end);
    match goal with
    | Hx : _ = EvCreateUserAsset _ _ _ |- _ => inversion Hx; subst; clear Hx
    end.
  - split; [eauto|]. split; [cbn; auto|]. discriminate.
  - split; [eauto|]. split; [cbn; auto|]. intros _ _. split; [reflexivity|].
    eexists [_; _; _]. reflexivity.
  - split; [eauto|]. split; [cbn; auto|]. intros _ Hyes. congruence.
Qed.

Lemma ExecRun_reply E apiKey locatorURL filePath tempFile res evs prop rsp err :
  ExecRun E apiKey locatorURL filePath tempFile res evs ->
  In (Core (EvCreateUserAsset prop rsp err)) evs ->
  exists url stale root carEvs H fileType ures upEvs tail,
    evs = setUp locatorURL apiKey url ++ [EvOsStat filePath None] ++ stale ++
          map Core carEvs ++ map Core upEvs ++ tail ++ closed /\
    CarRun E tempFile (root, None) carEvs /\
    (fileType = "file" \/ fileType = "folder") /\
    UploadRun H tempFile root (Base filePath) fileType ures upEvs /\
    In (EvCreateUserAsset prop rsp err) upEvs /\
    (ures <> None -> res = ures /\ tail = []).
Proof.
  intros Hrun Hin.
  destruct Hrun as [close e evs Hsetup | url e | url stale root e carEvs Hst Hcar
                   | url stale root carEvs H fileType e upEvs Hst Hcar Hty Hup
                   | url stale root carEvs H fileType upEvs r Hst Hcar Hty Hup].
  - exfalso. inversion Hsetup; subst; unfold setUp in Hin; cbn [In] in Hin;
      repeat match goal with
             | Hx : _ \/ _ |- _ => destruct Hx
             | Hx : False |- _ => destruct Hx
             | Hx : _ = Core _ |- _ => discriminate Hx
             end.
  - exfalso. unfold setUp, closed in Hin. cbn [In app] in Hin.
    repeat match goal with
           | Hx : _ \/ _ |- _ => destruct Hx
           | Hx : False |- _ => destruct Hx
           | Hx : _ = Core _ |- _ => discriminate Hx
           end.
  - exfalso. unfold setUp, closed in Hin.
    rewrite !in_app_iff in Hin. cbn [In] in Hin.
    destruct Hst; cbn [In] in Hin;
      repeat match goal with
             | Hx : _ \/ _ |- _ => destruct Hx
             | Hx : False |- _ => destruct Hx
             | Hx : _ = Core _ |- _ => discriminate Hx
             | Hx : In (Core _) (map Core _) |- _ => apply In_map_Core in Hx
             end;
      eapply CarRun_no_reply; eauto.
  - exists url, stale, root, carEvs, H, fileType, (Some e), upEvs, [].
    split; [reflexivity|]. repeat split; auto.
    unfold setUp, closed in Hin.
    rewrite !in_app_iff in Hin. cbn [In] in Hin.
    destruct Hst; cbn [In] in Hin;
      repeat match goal with
             | Hx : _ \/ _ |- _ => destruct Hx
             | Hx : False |- _ => destruct Hx
             | Hx : _ = Core _ |- _ => discriminate Hx
             | Hx : In (Core _) (map Core _) |- _ => apply In_map_Core in Hx
             end; auto;
      exfalso; eapply CarRun_no_reply; eauto.
  - exists url, stale, root, carEvs, H, fileType, None, upEvs, [EvOsRemove tempFile r].
    split; [reflexivity|]. repeat split; auto; try congruence.
    unfold setUp, closed in Hin.
    rewrite !in_app_iff in Hin. cbn [In] in Hin.
    destruct Hst; cbn [In] in Hin;
      repeat match goal with
             | Hx : _ \/ _ |- _ => destruct Hx
             | Hx : False |- _ => destruct Hx
             | Hx : _ = Core _ |- _ => discriminate Hx
             | Hx : In (Core _) (map Core _) |- _ => apply In_map_Core in Hx
             end; auto;
      exfalso; eapply CarRun_no_reply; eauto.
Qed.

(** What [execUpload] announces to the scheduler is the CAR it has just
    built: the asset is named by the base name of the input path, typed
    "file" or "folder", and its CID is the string of the root that
    [createCar] patched, without error, into the temporary file, which is
    the file [uploadFile] then opened. *)
Theorem execUpload_announces_the_built_car E SH apiKey locatorURL filePath st prop rsp err :
  let tempFile := Join SH (TempDir SH) (Base filePath) in
  let evs := snd (execUpload E SH apiKey locatorURL filePath st) in
  In (Core (EvCreateUserAsset prop rsp err)) evs ->
  AssetName prop = Base filePath /\
  (AssetType prop = "file" \/ AssetType prop = "folder") /\
  exists c,
    AssetCID prop = CidString E c /\
    In (Core (EvReplaceRootsInFile tempFile [c] None)) evs /\
    In (Core (EvOsOpen tempFile None)) evs.
Proof.
  cbv zeta. intros Hin.
  pose proof (execUpload_run E SH apiKey locatorURL filePath st) as Hrun.
  destruct (ExecRun_reply _ _ _ _ _ _ _ _ _ _ Hrun Hin)
    as (url & stale & root & carEvs & H & fileType & ures & upEvs & tail &
        Hevs & Hcar & Hty & Hup & Hreply & _).
  destruct (UploadRun_reply _ _ _ _ _ _ _ _ _ _ Hup Hreply) as ((size & ->) & Hopen & _).
  cbn [AssetName AssetType AssetCID]. split; [reflexivity|]. split; [exact Hty|].
  inversion Hcar as [ | | | | c cerr body Hbody]; subst.
  exists c. split; [reflexivity|]. rewrite Hevs. split.
  - rewrite !in_app_iff. right. right. right. left.
    apply in_map. cbn [In]. right. rewrite in_app_iff. right. cbn. auto.
  - rewrite !in_app_iff. right. right. right. right. left.
    apply in_map. exact Hopen.
Qed.

Lemma execUpload_announces_the_built_car_witness :
  AssetName (mkAssetProperty (Demo.cidString (Demo.cidOf (list_byte_of_string "dir/a")))
               "a" 5 "file") = Base "dir/a" /\
  (AssetType (mkAssetProperty (Demo.cidString (Demo.cidOf (list_byte_of_string "dir/a")))
                "a" 5 "file") = "file" \/
   AssetType (mkAssetProperty (Demo.cidString (Demo.cidOf (list_byte_of_string "dir/a")))
                "a" 5 "file") = "folder") /\
  exists c,
    AssetCID (mkAssetProperty (Demo.cidString (Demo.cidOf (list_byte_of_string "dir/a")))
                "a" 5 "file") = CidString Demo.extern c /\
    In (Core (EvReplaceRootsInFile
                (Join (DemoSys.host None true Demo.okHost)
                      (TempDir (DemoSys.host None true Demo.okHost)) (Base "dir/a"))
                [c] None))
       (snd (execUpload Demo.extern (DemoSys.host None true Demo.okHost)
               "key" "https://locator" "dir/a" [])) /\
    In (Core (EvOsOpen
                (Join (DemoSys.host None true Demo.okHost)
                      (TempDir (DemoSys.host None true Demo.okHost)) (Base "dir/a"))
                None))
       (snd (execUpload Demo.extern (DemoSys.host None true Demo.okHost)
               "key" "https://locator" "dir/a" [])).
Proof.
  apply (execUpload_announces_the_built_car Demo.extern (DemoSys.host None true Demo.okHost)
           "key" "https://locator" "dir/a" []
           (mkAssetProperty (Demo.cidString (Demo.cidOf (list_byte_of_string "dir/a")))
              "a" 5 "file")
           (mkCreateAssetRsp "https://storage/upload" "token" false) None).
  vm_compute. auto 30.
Defined.

(** When the scheduler reports the asset as already existing,
    [execUpload] returns the error "asset <cid> already exist", and the
    CAR it has just built stays in the temporary directory: the last
    things it does are closing the file and the connection. *)
Theorem execUpload_existing_asset_keeps_the_car E SH apiKey locatorURL filePath st prop rsp :
  let tempFile := Join SH (TempDir SH) (Base filePath) in
  let evs := snd (execUpload E SH apiKey locatorURL filePath st) in
  In (Core (EvCreateUserAsset prop rsp None)) evs ->
  AlreadyExists rsp = true ->
  fst (execUpload E SH apiKey locatorURL filePath st)
    = Some (Errorf_s "asset " (AssetCID prop) " already exist") /\
  exists evs', evs = evs' ++ [Core (EvFileClose tempFile); EvApiClose; EvUdpClose].
Proof.
  cbv zeta. intros Hin Hyes.
  pose proof (execUpload_run E SH apiKey locatorURL filePath st) as Hrun.
  destruct (ExecRun_reply _ _ _ _ _ _ _ _ _ _ Hrun Hin)
    as (url & stale & root & carEvs & H & fileType & ures & upEvs & tail &
        Hevs & Hcar & Hty & Hup & Hreply & Htail).
  destruct (UploadRun_reply _ _ _ _ _ _ _ _ _ _ Hup Hreply)
    as ((size & ->) & _ & Hexists).
  destruct (Hexists eq_refl Hyes) as [-> (upEvs' & ->)].
  assert (Hne : Some (Errorf_s "asset " root " already exist") <> None) by discriminate.
  destruct (Htail Hne) as [Hres ->].
  cbn [AssetCID]. split; [exact Hres|].
  rewrite Hevs.
  exists (setUp locatorURL apiKey url ++ [EvOsStat filePath None] ++ stale ++
          map Core carEvs ++ map Core upEvs').
  rewrite map_app. unfold closed. cbn [map app].
  repeat (rewrite <- app_assoc || rewrite <- app_comm_cons). reflexivity.
Qed.

Lemma execUpload_existing_asset_keeps_the_car_witness :
  fst (execUpload Demo.extern
         (DemoSys.host None false (Demo.host None None None true [] []))
         "key" "https://locator" "dir/a" [])
    = Some (Errorf_s "asset "
              (AssetCID (mkAssetProperty
                           (Demo.cidString (Demo.cidOf (list_byte_of_string "dir/a")))
                           "a" 5 "file"))
              " already exist") /\
  exists evs',
    snd (execUpload Demo.extern
           (DemoSys.host None false (Demo.host None None None true [] []))
           "key" "https://locator" "dir/a" [])
      = evs' ++ [Core (EvFileClose
                         (Join (DemoSys.host None false (Demo.host None None None true [] []))
                               (TempDir (DemoSys.host None false
                                           (Demo.host None None None true [] [])))
                               (Base "dir/a")));
                 EvApiClose; EvUdpClose].
Proof.
  apply (execUpload_existing_asset_keeps_the_car Demo.extern
           (DemoSys.host None false (Demo.host None None None true [] []))
           "key" "https://locator" "dir/a" []
           (mkAssetProperty (Demo.cidString (Demo.cidOf (list_byte_of_string "dir/a")))
              "a" 5 "file")
           (mkCreateAssetRsp "https://storage/upload" "token" true)).
  - vm_compute. auto 30.
  - reflexivity.
Defined.

Lemma prefix_before_Core (P : SysTrace) :
  forall rest pre ev post,
    Forall (fun x => isCore x = false) P ->
    P ++ rest = pre ++ Core ev :: post ->
    exists mid, pre = P ++ mid.
Proof.
  induction P as [|x P IH]; intros rest pre ev post HP Heq.
  - exists pre. reflexivity.
  - inversion HP as [|? ? Hx HP']; subst.
    destruct pre as [|y pre].
    + cbn in Heq. inversion Heq; subst. discriminate.
    + cbn in Heq. inversion Heq; subst.
      destruct (IH _ _ _ _ HP' H1) as [mid ->]. exists mid. reflexivity.
Qed.

(** Before anything is built, [execUpload] has dealt with the temporary
    path: it found it missing, or it called [os.Remove] on it (whose
    result it does not look at).  When the input itself lies at that path
    (a file directly in the temporary directory), the path removed is the
    input. *)
Theorem execUpload_clears_the_temp_path_first E SH apiKey locatorURL filePath st pre ev post :
  let tempFile := Join SH (TempDir SH) (Base filePath) in
  snd (execUpload E SH apiKey locatorURL filePath st) = pre ++ Core ev :: post ->
  (exists r, In (EvOsRemove tempFile r) pre) \/
  (exists e, In (EvOsStat tempFile (Some e)) pre).
Proof.
  cbv zeta. intros Heq.
  pose proof (execUpload_run E SH apiKey locatorURL filePath st) as Hrun.
  destruct (execUpload E SH apiKey locatorURL filePath st) as [res evs].
  cbn [fst snd] in *.
  assert (Hin : In (Core ev) evs) by (rewrite Heq; apply in_elt).
  assert (Hstale : forall url stale rest,
             StaleCheck (Join SH (TempDir SH) (Base filePath)) stale ->
             setUp locatorURL apiKey url ++ [EvOsStat filePath None] ++ stale ++ rest
               = pre ++ Core ev :: post ->
             (exists r, In (EvOsRemove (Join SH (TempDir SH) (Base filePath)) r) pre) \/
             (exists e, In (EvOsStat (Join SH (TempDir SH) (Base filePath)) (Some e)) pre)).
  { intros url stale rest Hst Hsplit.
    rewrite !app_assoc in Hsplit. rewrite <- (app_assoc _ _ stale) in Hsplit.
    apply prefix_before_Core in Hsplit.
    - destruct Hsplit as [mid ->].
      destruct Hst; [right | left]; eexists;
        rewrite !in_app_iff; cbn [In]; eauto 8.
    - apply Forall_app. split; [|destruct Hst]; repeat constructor. }
  destruct Hrun as [close e evs Hsetup | url e | url stale root e carEvs Hst Hcar
                   | url stale root carEvs H fileType e upEvs Hst Hcar Hty Hup
                   | url stale root carEvs H fileType upEvs r Hst Hcar Hty Hup].
  - exfalso. clear Heq.
    inversion Hsetup; subst; unfold setUp in Hin; cbn [In] in Hin;
      repeat match goal with
             | Hx : _ \/ _ |- _ => destruct Hx
             | Hx : False |- _ => destruct Hx
             | Hx : _ = Core _ |- _ => discriminate Hx
             end.
  - exfalso. clear Heq.
    unfold setUp, closed in Hin. cbn [In app] in Hin.
    repeat match goal with
           | Hx : _ \/ _ |- _ => destruct Hx
           | Hx : False |- _ => destruct Hx
           | Hx : _ = Core _ |- _ => discriminate Hx
           end.
  - eapply Hstale; eauto.
  - eapply Hstale; eauto.
  - eapply Hstale; eauto.
Qed.

Lemma execUpload_clears_the_temp_path_first_witness :
  (exists r,
      In (EvOsRemove (Join (DemoSys.host None true Demo.okHost)
                           (TempDir (DemoSys.host None true Demo.okHost)) (Base "/tmp/a")) r)
         (firstn 8 (snd (execUpload Demo.extern (DemoSys.host None true Demo.okHost)
                           "key" "https://locator" "/tmp/a" [])))) \/
  (exists e,
      In (EvOsStat (Join (DemoSys.host None true Demo.okHost)
                         (TempDir (DemoSys.host None true Demo.okHost)) (Base "/tmp/a"))
                   (Some e))
         (firstn 8 (snd (execUpload Demo.extern (DemoSys.host None true Demo.okHost)
                           "key" "https://locator" "/tmp/a" [])))).
Proof.
  apply (execUpload_clears_the_temp_path_first Demo.extern (DemoSys.host None true Demo.okHost)
           "key" "https://locator" "/tmp/a" []
           (firstn 8 (snd (execUpload Demo.extern (DemoSys.host None true Demo.okHost)
                             "key" "https://locator" "/tmp/a" [])))
           (EvOpenReadWrite "/tmp/a" [proxyRootOf Demo.extern] None)
           (skipn 9 (snd (execUpload Demo.extern (DemoSys.host None true Demo.okHost)
                            "key" "https://locator" "/tmp/a" [])))).
  vm_compute. reflexivity.
Defined.


Lemma createCar_declares_and_replaces_one_root_witness :
  "out.car" = "out.car" /\ List.length [proxyRootOf Demo.extern] = 1%nat.
Proof.
  apply (createCar_declares_and_replaces_one_root Demo.extern Demo.okHost "a" "out.car" []
           "out.car" [proxyRootOf Demo.extern] None).
  left. vm_compute. auto.
Defined.
